(** * miniwdl static front end

    A shallow embedding of the declaration/task object model
    ([WDL/Document.py]), of the parse-tree transformer ([WDL/__init__.py])
    and of the diagnostic and input-resolution paths of the command line
    ([WDL/CLI.py]), followed by the properties established about them.

    Conventions.  Python integers are [Z]; Python strings are [string];
    a raised exception is the [Err] branch of [result]; an [assert] that
    fails raises [AssertionError]; [d[k]] on a missing key raises
    [KeyError]; a Python [float] payload is an IEEE-754 [spec_float]. *)

From Stdlib Require Import ZArith String Ascii List SpecFloat.
From stdpp Require Import base option list gmap strings pretty.

Set Warnings "-register-all".
Set Default Proof Using "Type".

(** ** Source positions ([WDL.Error.SourcePosition]) *)

Record SourcePosition := {
  uri : string;
  line : Z;
  column : Z;
  end_line : Z;
  end_column : Z
}.

(** ** Types ([WDL.Type]) *)

Module T.

(** Modelled from the spec: [WDL/Type.py] is not among the sources.  The
    variants are the closed set of section 3 with the two quantifier flags
    ([nonempty] exists on [Array] only); [Var] is the type variable that
    an empty array literal infers to (section 4.2).  The constructors and
    the accessors [item_type] and [nonempty] are the ones the sources
    call ([T.Int()], [T.Array(items[0])], [decl.type.item_type],
    [decl.type.nonempty]). *)
Inductive Base : Type :=
| Int (optional : bool)
| Float (optional : bool)
| Boolean (optional : bool)
| String (optional : bool)
| File (optional : bool)
| Array (item_type : Base) (optional : bool) (nonempty : bool)
| Var.

#[export] Instance Base_eq_dec : EqDecision Base.
Proof. solve_decision. Defined.

(** [isinstance(ty, T.Array)] *)
Definition is_Array (ty : Base) : bool :=
  match ty with Array _ _ _ => true | _ => false end.

Definition is_Int (ty : Base) : bool :=
  match ty with Int _ => true | _ => false end.

Definition is_Float (ty : Base) : bool :=
  match ty with Float _ => true | _ => false end.

Definition is_Boolean (ty : Base) : bool :=
  match ty with Boolean _ => true | _ => false end.

Definition optional (ty : Base) : bool :=
  match ty with
  | Int o | Float o | Boolean o | String o | File o | Array _ o _ => o
  | Var => false
  end.

(** [ty.nonempty], a flag of [Array] types *)
Definition nonempty (ty : Base) : bool :=
  match ty with Array _ _ ne => ne | _ => false end.

(** Modelled from the spec: the coercion relation of section 3.  Identity
    always coerces; [Int] to [Float] always coerces; with
    [check_quant = false] a bare [T] coerces to [Array[T]] and an optional
    type coerces to any expected type. *)
Definition coerces (self rhs : Base) (check_quant : bool) : bool :=
  bool_decide (self = rhs)
  || (is_Int self && is_Float rhs)
  || (negb check_quant
      && (bool_decide (rhs = Array self false false) || optional self)).

(** Modelled from the spec: the display string of section 4.1, which
    mirrors the surface syntax ([Array[Int]+], [String?]). *)
Fixpoint to_display_string (ty : Base) : string :=
  let q (o : bool) := if o then "?" else "" in
  match ty with
  | Int o => "Int" +:+ q o
  | Float o => "Float" +:+ q o
  | Boolean o => "Boolean" +:+ q o
  | String o => "String" +:+ q o
  | File o => "File" +:+ q o
  | Array item o ne =>
      "Array[" +:+ to_display_string item +:+ "]"
      +:+ (if ne then "+" else "") +:+ q o
  | Var => "Any"
  end.

(** Modelled from the spec: "an empty array infers to a type variable
    resolved later by the expected-type pass" (section 4.2).  [resolve]
    is that pass: type variables of the inferred type take the shape of
    the expected type. *)
Fixpoint resolve (actual expected : Base) : Base :=
  match actual, expected with
  | Var, _ => expected
  | Array a o ne, Array e _ _ => Array (resolve a e) o ne
  | _, _ => actual
  end.

End T.

(** ** Exceptions ([WDL.Error] and the Python built-ins the sources raise) *)

Module Error.

(** The kinds of [ValidationError] named by the sources and the spec.
    [StaticTypeMismatch] carries the [expected] and [actual] types that
    [CLI.print_error] reads back. *)
Inductive validation_kind : Type :=
| IncompatibleOperand (message : string)
| UnknownIdentifier (name : list string)
| NoSuchFunction (name : string)
| WrongArity (name : string) (expected : nat)
| StaticTypeMismatch (expected actual : T.Base)
| OtherValidation.

(** Exception objects.  The WDL errors carry what [CLI.print_error]
    inspects: [pos], [source_text] (attached by the loader, [None] when
    raised), [__cause__] and [exceptions]. *)
Inductive exn : Type :=
| AssertionError
| KeyError (key : string)
| IndexError
| AttributeError
| TypeError
| SystemExit (message : string) (status : Z)
| SyntaxError (pos : SourcePosition)
| ImportError (pos : SourcePosition) (cause : option exn)
| ValidationError (kind : validation_kind) (pos : SourcePosition)
    (source_text : option string)
| MultipleValidationErrors (exceptions : list exn).

(** [isinstance(exn, Error.ValidationError)] *)
Definition is_ValidationError (e : exn) : bool :=
  match e with ValidationError _ _ _ => true | _ => false end.

End Error.
Export Error.

(** ** Computations that may raise *)

Inductive result (A : Type) : Type :=
| Ok (a : A)
| Err (e : exn).
Arguments Ok {A} a.
Arguments Err {A} e.

#[export] Instance result_ret : MRet result := fun _ a => Ok a.
#[export] Instance result_bind : MBind result :=
  fun _ _ f m => match m with Ok a => f a | Err e => Err e end.

(** [assert cond] *)
Definition assert (cond : bool) : result unit :=
  if cond then Ok tt else Err AssertionError.

(** [for x in xs: acc = f(x, acc)], aborting at the first exception. *)
Fixpoint for_each {A S : Type} (f : A → S → result S) (xs : list A) (acc : S)
  : result S :=
  match xs with
  | [] => Ok acc
  | x :: xs' => acc' ← f x acc; for_each f xs' acc'
  end.

(** ** Expressions ([WDL.Expr]) *)

Module E.

(** The expression nodes, with the constructor arguments the transformer
    passes ([E.Boolean(sp(meta), True)], [E.String(sp(meta), parts)],
    [E.Placeholder(pos, options, expr)], ...).  A part of a [String] is
    literal text ([inl]) or an expression node ([inr]). *)
Inductive Base : Type :=
| Boolean (pos : SourcePosition) (value : bool)
| Int (pos : SourcePosition) (value : Z)
| Float (pos : SourcePosition) (value : spec_float)
| String (pos : SourcePosition) (parts : list (string + Base))
| Array (pos : SourcePosition) (items : list Base)
| Apply (pos : SourcePosition) (function : string) (arguments : list Base)
| IfThenElse (pos : SourcePosition) (condition consequent alternative : Base)
| Ident (pos : SourcePosition) (name : list string)
| Placeholder (pos : SourcePosition) (options : gmap string string)
    (expr : Base).

(** [item.pos] *)
Definition pos (e : Base) : SourcePosition :=
  match e with
  | Boolean p _ | Int p _ | Float p _ | String p _ | Array p _
  | Apply p _ _ | IfThenElse p _ _ _ | Ident p _ | Placeholder p _ _ => p
  end.

(** [isinstance(item, E.Placeholder)] *)
Definition is_Placeholder (e : Base) : bool :=
  match e with Placeholder _ _ _ => true | _ => false end.

(** Modelled from the spec: the type environment of section 4.3, a
    persistent chain searched from the most recent binding outward.
    [TypeEnv_empty] is [E.TypeEnv()] and [TypeEnv_bind (n, t) env] is
    [E.TypeEnv((n, t), env)], the two forms [Document.py] constructs. *)
Definition TypeEnv : Type := list (string * T.Base).

Definition TypeEnv_empty : TypeEnv := [].

Definition TypeEnv_bind (binding : string * T.Base) (outer : TypeEnv)
  : TypeEnv := binding :: outer.

Fixpoint TypeEnv_lookup (env : TypeEnv) (name : string) : option T.Base :=
  match env with
  | [] => None
  | (n, ty) :: outer =>
      if bool_decide (n = name) then Some ty else TypeEnv_lookup outer name
  end.

(** Modelled from the spec: the signature of a library function, with its
    fixed arity and the rule giving its result type from the types of its
    arguments.  The table itself ([WDL.StdLib]) is given neither by the
    sources nor by the spec, so it is a parameter, as is the global
    quantifier-checking flag. *)
Record Function := {
  arity : nat;
  infer_result : SourcePosition → list T.Base → result T.Base
}.

Class Globals := {
  stdlib : string → option Function;
  check_quant : bool
}.

Section inference.
Context `{G : Globals}.

Definition mismatch (p : SourcePosition) (expected actual : T.Base) : exn :=
  ValidationError (StaticTypeMismatch expected actual) p None.

(** Modelled from the spec: unification to "the least type both coerce
    to", failing with [StaticTypeMismatch] when neither coerces to the
    other (sections 4.2 and 9). *)
Definition unify (p : SourcePosition) (a b : T.Base) : result T.Base :=
  let a' := T.resolve a b in
  let b' := T.resolve b a in
  if T.coerces a' b' check_quant then Ok b'
  else if T.coerces b' a' check_quant then Ok a'
  else Err (mismatch p a' b').

(** Modelled from the spec: [infer_type] of section 4.2.  Memoisation
    of the resolved type on the node is idempotent and is left out. *)
Fixpoint infer_type (e : Base) (env : TypeEnv) : result T.Base :=
  match e with
  | Boolean _ _ => Ok (T.Boolean false)
  | Int _ _ => Ok (T.Int false)
  | Float _ _ => Ok (T.Float false)
  | String _ parts =>
      _ ← (fix placeholders (ps : list (string + Base)) : result unit :=
             match ps with
             | [] => Ok tt
             | inl _ :: ps' => placeholders ps'
             | inr p :: ps' => _ ← infer_type p env; placeholders ps'
             end) parts;
      Ok (T.String false)
  | Array p items =>
      item ← (fix items_type (xs : list Base) (acc : T.Base)
                : result T.Base :=
                match xs with
                | [] => Ok acc
                | x :: xs' =>
                    ty ← infer_type x env;
                    acc' ← unify (pos x) acc ty;
                    items_type xs' acc'
                end) items T.Var;
      Ok (T.Array item false false)
  | Apply p f arguments =>
      match stdlib f with
      | None => Err (ValidationError (NoSuchFunction f) p None)
      | Some fn =>
          if bool_decide (length arguments = arity fn) then
            tys ← (fix arguments_types (xs : list Base)
                     : result (list T.Base) :=
                     match xs with
                     | [] => Ok []
                     | x :: xs' =>
                         ty ← infer_type x env;
                         tys ← arguments_types xs';
                         Ok (ty :: tys)
                     end) arguments;
            infer_result fn p tys
          else Err (ValidationError (WrongArity f (arity fn)) p None)
      end
  | IfThenElse p condition consequent alternative =>
      cty ← infer_type condition env;
      if T.is_Boolean cty then
        tty ← infer_type consequent env;
        aty ← infer_type alternative env;
        unify p tty aty
      else Err (mismatch (pos condition) (T.Boolean false) cty)
  | Ident p name =>
      match TypeEnv_lookup env (String.concat "." name) with
      | Some ty => Ok ty
      | None => Err (ValidationError (UnknownIdentifier name) p None)
      end
  | Placeholder _ _ inner => infer_type inner env
  end.

(** Modelled from the spec: [typecheck(expected)] of section 4.2, in
    the form [Document.py] uses it,
    [expr.infer_type(type_env).typecheck(expected)]. *)
Definition typecheck (e : Base) (env : TypeEnv) (expected : T.Base)
  : result unit :=
  actual ← infer_type e env;
  if T.coerces (T.resolve actual expected) expected check_quant
  then Ok tt
  else Err (mismatch (pos e) expected actual).

End inference.

End E.

(** ** Runtime values ([WDL.Value]), as [CLI.py] constructs and reads them *)

Module Value.

(** [Value.Boolean(True)], [Value.Int(int(s))], [Value.Float(float(s))],
    [Value.String(s)], [Value.File(path)] and
    [Value.Array(item_type, [...])]. *)
Inductive Base : Type :=
| Boolean (value : bool)
| Int (value : Z)
| Float (value : spec_float)
| String (value : string)
| File (value : string)
| Array (item_type : T.Base) (value : list Base).

End Value.

(** ** Plain Python values held by the meta sections

    [Dict[str, Any]]: what a [meta], [parameter_meta] or [runtime] mapping
    may hold.  [Expr] stands for an expression node stored as it is, and
    [Object] for a runtime value object (the elements of the [.value] of a
    [Value.Array]).  Dictionaries keep insertion order. *)

Module Py.

Inductive t : Type :=
| Bool (b : bool)
| Int (i : Z)
| Float (f : spec_float)
| Str (s : string)
| List (items : list t)
| Dict (items : list (string * t))
| Object (v : Value.Base)
| Expr (e : E.Base).

(** [v.value] for a runtime value [v] *)
Definition value (v : Value.Base) : t :=
  match v with
  | Value.Boolean b => Bool b
  | Value.Int i => Int i
  | Value.Float f => Float f
  | Value.String s | Value.File s => Str s
  | Value.Array _ vs => List (map Object vs)
  end.

End Py.

(** ** Declarations and tasks ([WDL/Document.py]) *)

Module D.

Module Decl.

Record t := {
  pos : SourcePosition;
  type : T.Base;
  name : string;
  optional : bool;
  nonempty : bool;
  expr : option E.Base
}.

(** [Decl.__init__]: the fields are stored, then the quantifier check
    raises [IncompatibleOperand] on the new node. *)
Definition __init__ (pos : SourcePosition) (type : T.Base) (name : string)
    (optional nonempty : bool) (expr : option E.Base) : result t :=
  let self :=
    {| pos := pos; type := type; name := name; optional := optional;
       nonempty := nonempty; expr := expr |} in
  if nonempty && negb (T.is_Array type) then
    Err (ValidationError
           (IncompatibleOperand "nonempty quantifier (+) on non-Array type")
           pos None)
  else Ok self.

(** [Decl.bind] *)
Definition bind (self : t) (expr : E.Base) : result t :=
  __init__ (pos self) (type self) (name self) (optional self)
    (nonempty self) (Some expr).

(** *** The same two operations on an object store

    A [Decl] object is a cell of a store; a reference is the address of
    its cell.  Constructing an object allocates a fresh cell, and a
    constructor that raises leaves the store as it was. *)

Definition new (pos : SourcePosition) (type : T.Base) (name : string)
    (optional nonempty : bool) (expr : option E.Base) (σ : gmap positive t)
  : result (positive * gmap positive t) :=
  obj ← __init__ pos type name optional nonempty expr;
  let ref := fresh (dom σ) in
  Ok (ref, <[ref := obj]> σ).

(** [self.bind(expr)] for the object at address [self]; the [None]
    branch is a dangling reference, which Python does not have. *)
Definition bind_ref (self : positive) (expr : E.Base) (σ : gmap positive t)
  : result (positive * gmap positive t) :=
  match σ !! self with
  | Some d =>
      new (pos d) (type d) (name d) (optional d) (nonempty d) (Some expr) σ
  | None => Err AttributeError
  end.

End Decl.

Section typecheck.
Context `{G : E.Globals}.

(** [_typecheck_decl] *)
Definition _typecheck_decl (decl : Decl.t) (type_env : E.TypeEnv)
  : result E.TypeEnv :=
  _ ← match Decl.expr decl with
      | Some e => E.typecheck e type_env (Decl.type decl)
      | None => Ok tt
      end;
  Ok (E.TypeEnv_bind (Decl.name decl, Decl.type decl) type_env).

End typecheck.

Module Task.

Record t := {
  pos : SourcePosition;
  name : string;
  inputs : list Decl.t;
  postinputs : list Decl.t;
  command : E.Base;
  outputs : list Decl.t;
  parameter_meta : Py.t;
  runtime : Py.t;
  meta : Py.t
}.

Section typecheck.
Context `{G : E.Globals}.

(** The environment after the loop over [inputs + postinputs]. *)
Definition typecheck_inputs (self : t) (type_env : E.TypeEnv)
  : result E.TypeEnv :=
  for_each _typecheck_decl (inputs self ++ postinputs self) type_env.

(** [Task.typecheck].  It returns [None]; the model returns the final
    environment so that the bindings it accumulated can be stated. *)
Definition typecheck (self : t) (type_env : option E.TypeEnv)
  : result E.TypeEnv :=
  let type_env := default E.TypeEnv_empty type_env in
  type_env ← typecheck_inputs self type_env;
  _ ← E.typecheck (command self) type_env (T.String false);
  for_each _typecheck_decl (outputs self) type_env.

End typecheck.

End Task.

End D.

(** ** Python string and sequence primitives used by the sources *)

Module Python.

(** An index or slice bound [i] of a sequence of length [len], as Python
    normalises it for slicing: negative bounds count from the end and the
    result is clipped to [0 .. len]. *)
Definition slice_bound (len i : Z) : Z :=
  if (i <? 0)%Z then Z.max 0 (len + i) else Z.min i len.

(** [s[start:stop]] *)
Definition slice (s : string) (start stop : Z) : string :=
  let len := Z.of_nat (String.length s) in
  let a := slice_bound len start in
  let b := slice_bound len stop in
  substring (Z.to_nat a) (Z.to_nat (b - a)) s.

(** [s.endswith(suffix)] *)
Definition endswith (s suffix : string) : bool :=
  let n := String.length s in
  let k := String.length suffix in
  bool_decide (k ≤ n) && bool_decide (substring (n - k) k s = suffix).

(** [xs[i]], raising [IndexError] out of range; a negative index counts
    from the end. *)
Definition getitem {A : Type} (xs : list A) (i : Z) : result A :=
  let len := Z.of_nat (length xs) in
  let j := if (i <? 0)%Z then (len + i)%Z else i in
  if (j <? 0)%Z then Err IndexError
  else match xs !! Z.to_nat j with
       | Some x => Ok x
       | None => Err IndexError
       end.

(** [s[i]] on a string: the character at [i], with the same rule. *)
Definition str_getitem (s : string) (i : Z) : result ascii :=
  getitem (list_ascii_of_string s) i.

(** [s.split(sep)] for a one-character separator. *)
Fixpoint split (sep : ascii) (s : string) : list string :=
  match s with
  | EmptyString => [EmptyString]
  | String.String c s' =>
      if bool_decide (c = sep) then EmptyString :: split sep s'
      else match split sep s' with
           | h :: t => String.String c h :: t
           | [] => [String.String c EmptyString]
           end
  end.

(** [s.replace(old, new)] for one-character [old] and [new]. *)
Fixpoint replace (old new : ascii) (s : string) : string :=
  match s with
  | EmptyString => EmptyString
  | String.String c s' =>
      String.String (if bool_decide (c = old) then new else c)
        (replace old new s')
  end.

(** [c * n] for a one-character string [c]: empty when [n <= 0]. *)
Definition repeat_char (c : ascii) (n : Z) : string :=
  string_of_list_ascii (repeat c (Z.to_nat n)).

(** [d[k]] on a dictionary *)
Definition dict_getitem {V : Type} (d : gmap string V) (k : string)
  : result V :=
  match d !! k with
  | Some v => Ok v
  | None => Err (KeyError k)
  end.

(** [k in d] *)
Definition dict_contains {V : Type} (d : gmap string V) (k : string) : bool :=
  bool_decide (is_Some (d !! k)).

(** [k in d] and [d[k] = v] on an insertion-ordered dictionary whose keys
    are kept distinct by the caller. *)
Definition odict_contains {V : Type} (d : list (string * V)) (k : string)
  : bool :=
  bool_decide (k ∈ d.*1).

Definition newline : ascii := Ascii.ascii_of_nat 10.
Definition tab : ascii := Ascii.ascii_of_nat 9.
Definition space : ascii := Ascii.ascii_of_nat 32.
Definition caret : ascii := Ascii.ascii_of_nat 94.


(** [c.isalpha()] for a character; the strings of the model are ASCII, so
    the letters are [A-Z] and [a-z]. *)
Definition isalpha (c : ascii) : bool :=
  let n := nat_of_ascii c in
  ((65 <=? n) && (n <=? 90)) || ((97 <=? n) && (n <=? 122)).

(** [s.split(sep, 1)] for a one-character separator: at most one cut, at
    the first separator. *)
Fixpoint split1 (sep : ascii) (s : string) : list string :=
  match s with
  | EmptyString => [EmptyString]
  | String.String c s' =>
      if bool_decide (c = sep) then [EmptyString; s']
      else match split1 sep s' with
           | h :: t => String.String c h :: t
           | [] => [String.String c EmptyString]
           end
  end.

Definition equals_sign : ascii := Ascii.ascii_of_nat 61.
Definition hyphen : ascii := Ascii.ascii_of_nat 45.

End Python.

(** ** The parse tree handed over by the grammar engine ([lark]) *)

Module lark.

(** A token: a [str] with the name of its terminal. *)
Record Token := { type : string; value : string }.

(** The position metadata of a tree node. *)
Record Meta := { line : Z; column : Z; end_line : Z; end_column : Z }.

End lark.

(** ** The transformer from parse trees to the object model
       ([WDL/__init__.py]) *)

Module WDL.

(** [sp(meta)].  The position built here names no document; [uri] is
    filled in by the loader. *)
Definition sp (meta : lark.Meta) : SourcePosition :=
  {| uri := EmptyString;
     line := lark.line meta; column := lark.column meta;
     end_line := lark.end_line meta; end_column := lark.end_column meta |}.

(** A child of a [string] or [command] node after its own transformation:
    a token, or an expression node. *)
Inductive text_item : Type :=
| Tok (t : lark.Token)
| Node (e : E.Base).

(** The value stored under a key of a section fragment: the name token,
    a list of declarations, the command, or a meta mapping. *)
Inductive section_value : Type :=
| Str (s : string)
| Decls (items : list D.Decl.t)
| Command (e : E.Base)
| Mapping (m : Py.t).

(** A child of a [task] node after its own transformation: a fragment
    (a [dict], given by its items), a [str], or anything else. *)
Inductive task_item : Type :=
| Fragment (items : list (string * section_value))
| NameToken (s : string)
| Other.

(** The evaluator of expressions in the empty environment,
    [e.eval(WDL.Expr.Env())]; [WDL/Expr.py] is not among the sources and
    the spec leaves evaluation out of its scope, so it is a parameter. *)
Class Evaluator := { eval : E.Base → result Value.Base }.

Module _ExprTransformer.

(** The literal text a token contributes to [parts]. *)
Definition literal (t : lark.Token) : string :=
  if Python.endswith (lark.type t) "_FRAGMENT"
  then Python.slice (lark.value t) 0 (-2)
  else lark.value t.

(** [_ExprTransformer.string] *)
Definition string (items : list text_item) (meta : lark.Meta) : E.Base :=
  let parts :=
    foldl (λ (parts : list (string + E.Base)) item,
             match item with
             | Node e => parts ++ [inr (E.Placeholder (E.pos e) ∅ e)]
             | Tok t => parts ++ [inl (literal t)]
             end) [] items in
  E.String (sp meta) parts.


(** [boolean_true], [boolean_false] *)
Definition boolean_true (meta : lark.Meta) : E.Base := E.Boolean (sp meta) true.
Definition boolean_false (meta : lark.Meta) : E.Base :=
  E.Boolean (sp meta) false.

(** [array]; its children are expressions. *)
Definition array (items : list E.Base) (meta : lark.Meta) : E.Base :=
  E.Array (sp meta) items.

(** [apply]: the first child is the token of the function name, the others
    are the arguments; [assert len(items) >= 1] is the presence of that
    token. *)
Definition apply (name : option lark.Token) (arguments : list E.Base)
    (meta : lark.Meta) : result E.Base :=
  match name with
  | Some name => Ok (E.Apply (sp meta) (lark.value name) arguments)
  | None => Err AssertionError
  end.

(** [negate] and [get], which do not count their children. *)
Definition negate (items : list E.Base) (meta : lark.Meta) : E.Base :=
  E.Apply (sp meta) "_negate" items.
Definition get (items : list E.Base) (meta : lark.Meta) : E.Base :=
  E.Apply (sp meta) "_get" items.

(** [ifthenelse]: [assert len(items) == 3], then
    [E.IfThenElse(sp(meta), *items)]. *)
Definition ifthenelse (items : list E.Base) (meta : lark.Meta)
  : result E.Base :=
  match items with
  | [condition; consequent; alternative] =>
      Ok (E.IfThenElse (sp meta) condition consequent alternative)
  | _ => Err AssertionError
  end.

(** [ident] *)
Definition ident (items : list lark.Token) (meta : lark.Meta) : E.Base :=
  E.Ident (sp meta) (map lark.value items).

(** The names over which the loop [for op in [...]] defines the methods of
    the infix operators. *)
Definition infix_operators : list String.string :=
  ["land"; "lor"; "add"; "sub"; "mul"; "div"; "rem";
   "eqeq"; "neq"; "lt"; "lte"; "gt"; "gte"].

(** The method [fn] that the loop installs under the name [op]. *)
Definition infix (op : String.string) (items : list E.Base)
    (meta : lark.Meta)
  : result E.Base :=
  _ ← assert (bool_decide (length items = 2));
  Ok (E.Apply (sp meta) ("_" +:+ op) items).

End _ExprTransformer.

Module _TaskTransformer.

(** [decl] *)
Definition decl (type : T.Base) (name : lark.Token) (meta : lark.Meta)
  : result D.Decl.t :=
  _ ← assert (bool_decide (lark.type name = "CNAME"));
  D.Decl.__init__ (sp meta) type (lark.value name) false false None.

(** [quantified_decl] *)
Definition quantified_decl (type : T.Base) (quantifier name : lark.Token)
    (meta : lark.Meta) : result D.Decl.t :=
  '(optional, nonempty) ←
    (if bool_decide (lark.value quantifier = "?") then Ok (true, false)
     else if bool_decide (lark.value quantifier = "+") then Ok (false, true)
     else Err AssertionError);
  _ ← assert (bool_decide (lark.type name = "CNAME"));
  D.Decl.__init__ (sp meta) type (lark.value name) optional nonempty None.

(** [bound_decl] *)
Definition bound_decl (d : D.Decl.t) (e : E.Base) : result D.Decl.t :=
  D.Decl.bind d e.

(** [input_decls], [noninput_decls], [output_decls] *)
Definition input_decls (items : list D.Decl.t) : task_item :=
  Fragment [("inputs", Decls items)].
Definition noninput_decls (items : list D.Decl.t) : task_item :=
  Fragment [("decls", Decls items)].
Definition output_decls (items : list D.Decl.t) : task_item :=
  Fragment [("outputs", Decls items)].

(** [placeholder]: [dict(items[:-1])], where a later option replaces an
    earlier one of the same name. *)
Definition placeholder (options : list (string * string)) (e : E.Base)
    (meta : lark.Meta) : E.Base :=
  E.Placeholder (sp meta)
    (foldl (λ (d : gmap string string) kv, <[kv.1 := kv.2]> d) ∅ options) e.

(** [command].  An expression child that is not a placeholder reaches
    [item.type.endswith], which an expression node does not support. *)
Definition command (items : list text_item) (meta : lark.Meta)
  : result task_item :=
  parts ← for_each
    (λ item (parts : list (string + E.Base)),
       match item with
       | Node e =>
           if E.is_Placeholder e then Ok (parts ++ [inr e])
           else Err AttributeError
       | Tok t => Ok (parts ++ [inl (_ExprTransformer.literal t)])
       end) items [];
  Ok (Fragment [("command", Command (E.String (sp meta) parts))]).

(** [meta_kv] *)
Definition meta_kv (key : lark.Token) (v : Py.t) : string * Py.t :=
  (lark.value key, v).

Section meta.
Context `{G : E.Globals} `{Ev : Evaluator}.

(** [meta_literal] *)
Definition meta_literal (e : E.Base) : result Py.t :=
  _ ← E.infer_type e E.TypeEnv_empty;
  v ← eval e;
  Ok (Py.value v).

End meta.

(** The body of the loop of [meta_object]:
    [assert k not in d; d[k] = v]. *)
Definition store_meta (kv : string * Py.t) (d : list (string * Py.t))
  : result (list (string * Py.t)) :=
  let '(k, v) := kv in
  _ ← assert (negb (Python.odict_contains d k));
  Ok (d ++ [(k, v)]).

(** [meta_object] *)
Definition meta_object (items : list (string * Py.t)) : result Py.t :=
  d ← for_each store_meta items [];
  Ok (Py.Dict d).

(** [meta_array] *)
Definition meta_array (items : list Py.t) : Py.t := Py.List items.

(** [meta_section] *)
Definition meta_section (kind : lark.Token) (v : Py.t) : task_item :=
  Fragment [(lark.value kind, Mapping v)].

(** [assert k not in d; d[k] = v] *)
Definition store_section (kv : string * section_value)
    (d : gmap string section_value) : result (gmap string section_value) :=
  let '(k, v) := kv in
  _ ← assert (negb (Python.dict_contains d k)); Ok (<[k := v]> d).

(** The body of the loop [for item in items] of [task]. *)
Definition merge_item (item : task_item) (d : gmap string section_value)
  : result (gmap string section_value) :=
  match item with
  | Fragment kvs => for_each store_section kvs d
  | NameToken s => store_section ("name", Str s) d
  | Other => Err AssertionError
  end.

(** The dictionary [d] that [task] accumulates from its children. *)
Definition sections (items : list task_item)
  : result (gmap string section_value) :=
  for_each merge_item items ∅.

(** The declared parameter types of [D.Task]: a stored value of another
    shape cannot come from the section rules (see [well_shaped]), and
    is reported as [TypeError]. *)
Definition as_str (v : section_value) : result string :=
  match v with Str s => Ok s | _ => Err TypeError end.
Definition as_decls (v : section_value) : result (list D.Decl.t) :=
  match v with Decls l => Ok l | _ => Err TypeError end.
Definition as_expr (v : section_value) : result E.Base :=
  match v with Command e => Ok e | _ => Err TypeError end.
Definition as_mapping (v : section_value) : result Py.t :=
  match v with Mapping m => Ok m | _ => Err TypeError end.

(** [d.get(k, default)] *)
Definition get (d : gmap string section_value) (k : string)
    (dflt : section_value) : section_value :=
  default dflt (d !! k).

(** [task] *)
Definition task (items : list task_item) (meta : lark.Meta)
  : result D.Task.t :=
  d ← sections items;
  name ← Python.dict_getitem d "name" ≫= as_str;
  inputs ← as_decls (get d "inputs" (Decls []));
  postinputs ← as_decls (get d "decls" (Decls []));
  command ← Python.dict_getitem d "command" ≫= as_expr;
  outputs ← as_decls (get d "outputs" (Decls []));
  parameter_meta ← as_mapping (get d "parameter_meta" (Mapping (Py.Dict [])));
  runtime ← as_mapping (get d "runtime" (Mapping (Py.Dict [])));
  meta_ ← as_mapping (get d "meta" (Mapping (Py.Dict [])));
  Ok {| D.Task.pos := sp meta; D.Task.name := name;
        D.Task.inputs := inputs; D.Task.postinputs := postinputs;
        D.Task.command := command; D.Task.outputs := outputs;
        D.Task.parameter_meta := parameter_meta;
        D.Task.runtime := runtime; D.Task.meta := meta_ |}.

(** The shapes the section rules store under each key: the grammar's
    contract on the children of a [task] node. *)
Definition well_shaped (k : string) (v : section_value) : bool :=
  match v with
  | Str _ => bool_decide (k = "name")
  | Decls _ => bool_decide (k ∈ ["inputs"; "decls"; "outputs"])
  | Command _ => bool_decide (k = "command")
  | Mapping _ => bool_decide (k ∈ ["parameter_meta"; "runtime"; "meta"])
  end.

Definition well_shaped_item (item : task_item) : bool :=
  match item with
  | Fragment kvs => forallb (λ kv, well_shaped kv.1 kv.2) kvs
  | NameToken _ => true
  | Other => false
  end.

(** The children of a [task] node before their own rules have run:
    the name token, the three lists of declarations (already
    transformed), the command with its items, and a meta section with
    the tree of its object. *)
Inductive meta_tree : Type :=
| meta_literal_node (e : E.Base)
| meta_array_node (children : list meta_tree)
| meta_object_node (children : list (lark.Token * meta_tree)).

Inductive task_child : Type :=
| name_child (t : lark.Token)
| input_decls_child (items : list D.Decl.t)
| noninput_decls_child (items : list D.Decl.t)
| output_decls_child (items : list D.Decl.t)
| command_child (items : list text_item) (meta : lark.Meta)
| meta_section_child (kind : lark.Token) (object : meta_tree).

Section transform.
Context `{G : E.Globals} `{Ev : Evaluator}.

(** The bottom-up pass over a meta value: children first, then the
    rule of the node. *)
Fixpoint transform_meta (t : meta_tree) : result Py.t :=
  match t with
  | meta_literal_node e => meta_literal e
  | meta_array_node children =>
      items ← (fix each (ts : list meta_tree) : result (list Py.t) :=
                 match ts with
                 | [] => Ok []
                 | c :: ts' =>
                     v ← transform_meta c; vs ← each ts'; Ok (v :: vs)
                 end) children;
      Ok (meta_array items)
  | meta_object_node children =>
      items ← (fix each (ts : list (lark.Token * meta_tree))
                 : result (list (string * Py.t)) :=
                 match ts with
                 | [] => Ok []
                 | (k, c) :: ts' =>
                     v ← transform_meta c; kvs ← each ts';
                     Ok (meta_kv k v :: kvs)
                 end) children;
      meta_object items
  end.

Definition transform_child (c : task_child) : result task_item :=
  match c with
  | name_child t => Ok (NameToken (lark.value t))
  | input_decls_child items => Ok (input_decls items)
  | noninput_decls_child items => Ok (noninput_decls items)
  | output_decls_child items => Ok (output_decls items)
  | command_child items meta => command items meta
  | meta_section_child kind object =>
      v ← transform_meta object; Ok (meta_section kind v)
  end.

Fixpoint transform_children (cs : list task_child)
  : result (list task_item) :=
  match cs with
  | [] => Ok []
  | c :: cs' =>
      item ← transform_child c;
      items ← transform_children cs';
      Ok (item :: items)
  end.

(** The transformation of a whole [task] node. *)
Definition transform_task (children : list task_child) (meta : lark.Meta)
  : result D.Task.t :=
  items ← transform_children children;
  task items meta.

End transform.


(** [placeholder_option]: the name of the option and the text of its
    value without the first and the last character (the quotes). *)
Definition placeholder_option (key value : lark.Token) : string * string :=
  (lark.value key, Python.slice (lark.value value) 1 (-1)).

End _TaskTransformer.

End WDL.

(** ** Name bindings ([WDL.Env]) *)

Module Env.

(** Modelled from the spec: [WDL/Env.py] is not among the sources.  As
    the environment of section 4.3, [Bindings] is a persistent chain;
    [bind] puts a binding in front and a lookup by name finds the most
    recent one.  A binding carries the [name], the [value] and the
    [info] that [CLI.runner_input] passes to [bind]. *)
Record Binding (A : Type) := {
  name : string;
  value : A;
  info : option D.Decl.t
}.
Arguments name {A} _.
Arguments value {A} _.
Arguments info {A} _.

Definition Bindings (A : Type) : Type := list (Binding A).

Definition bind {A : Type} (self : Bindings A) (name : string) (value : A)
    (info : option D.Decl.t) : Bindings A :=
  {| name := name; value := value; info := info |} :: self.

(** [self[name]], raising [KeyError] when the name is not bound *)
Fixpoint getitem {A : Type} (self : Bindings A) (key : string) : result A :=
  match self with
  | [] => Err (KeyError key)
  | b :: outer =>
      if bool_decide (name b = key) then Ok (value b) else getitem outer key
  end.

End Env.

(** ** The command line ([WDL/CLI.py]) *)

Module CLI.

(** What the functions below act on: the lines written to [sys.stderr]
    and the module-level flag [quant_warning]. *)
Record state := { stderr : list string; quant_warning : bool }.

(** The state of a fresh process: [quant_warning = False]. *)
Definition initial : state := {| stderr := []; quant_warning := false |}.

(** [print(s, file=sys.stderr)] *)
Definition print (s : string) (st : state) : state :=
  {| stderr := stderr st ++ [s]; quant_warning := quant_warning st |}.

Definition set_quant_warning (st : state) : state :=
  {| stderr := stderr st; quant_warning := true |}.

(** [str(exn)]: the message of an exception, defined by the exception
    classes, which are not among the sources; a parameter. *)
Class Messages := { str : exn → string }.

(** [getattr(exn, "pos", None)] *)
Definition pos_of (e : exn) : option SourcePosition :=
  match e with
  | SyntaxError p | ImportError p _ | ValidationError _ p _ => Some p
  | _ => None
  end.

(** The loop [while end_column > column + 1 and
    error_line[end_column - 2] == " ": end_column = end_column - 1].
    [steps] is [end_column - (column + 1)] when that is positive and [0]
    otherwise, so the first conjunct holds exactly when [steps] is a
    successor, and stays so as both decrease together. *)
Fixpoint trim_loop (error_line : string) (steps : nat) (end_column : Z)
  : result Z :=
  match steps with
  | O => Ok end_column
  | S steps' =>
      c ← Python.str_getitem error_line (end_column - 2);
      if bool_decide (c = Python.space)
      then trim_loop error_line steps' (end_column - 1)
      else Ok end_column
  end.

Definition trim (error_line : string) (column end_column : Z) : result Z :=
  trim_loop error_line (Z.to_nat (end_column - (column + 1))) end_column.

(** The body of [if isinstance(exn, Error.ValidationError) and
    exn.source_text:] in [print_error]. *)
Definition show_excerpt (kind : validation_kind) (pos : SourcePosition)
    (source_text : string) (st : state) : result state :=
  let lines := Python.split Python.newline source_text in
  error_line ← Python.getitem lines (line pos - 1);
  let error_line := Python.replace Python.tab Python.space error_line in
  let st := print ("    " +:+ error_line) st in
  let end_column0 :=
    if (end_line pos >? line pos)%Z
    then (Z.of_nat (String.length error_line) + 1)%Z
    else end_column pos in
  end_column ← trim error_line (column pos) end_column0;
  let st :=
    print ("    " +:+ Python.repeat_char Python.space (column pos - 1)
           +:+ Python.repeat_char Python.caret (end_column - column pos))
      st in
  match kind with
  | StaticTypeMismatch expected actual =>
      if T.coerces actual expected false
      then Ok (set_quant_warning st) else Ok st
  | _ => Ok st
  end.

Section print_error.
Context `{M : Messages}.

(** The first line printed for an exception. *)
Definition headline (e : exn) : string :=
  match pos_of e with
  | Some p =>
      "(" +:+ uri p +:+ " Ln " +:+ pretty (line p) +:+ " Col "
      +:+ pretty (column p) +:+ ") " +:+ str e
  | None => str e
  end.

(** [print_error].  Every exception object has a [__cause__], [None]
    unless set: the recursive call on it prints [str(None)]. *)
Fixpoint print_error (e : exn) (st : state) : result state :=
  match e with
  | MultipleValidationErrors exceptions =>
      (fix each (l : list exn) (st : state) : result state :=
         match l with
         | [] => Ok st
         | exn1 :: l' => st' ← print_error exn1 st; each l' st'
         end) exceptions st
  | _ =>
      let st := print (headline e) st in
      st ← match e with
           | ImportError _ cause =>
               match cause with
               | Some c => print_error c st
               | None => Ok (print "None" st)
               end
           | _ => Ok st
           end;
      match e with
      | ValidationError kind pos (Some source_text) =>
          if bool_decide (source_text ≠ EmptyString)
          then show_excerpt kind pos source_text st
          else Ok st
      | _ => Ok st
      end
  end.

Definition hint : string :=
  "* Hint: for compatibility with older existing WDL code, try setting --no-quant-check to relax quantifier validation rules.".

(** The handler of [main]: [print_error(exn)], then the hint; the
    state returned is the one in which the process exits. *)
Definition main_except (check_quant : bool) (e : exn) (st : state)
  : result state :=
  st ← print_error e st;
  Ok (if check_quant && quant_warning st then print hint st else st).

End print_error.

(** [die(msg)]: the message goes to [sys.stderr] and the process exits
    with status 2. *)
Definition die {A : Type} (msg : string) : result A :=
  Err (SystemExit msg 2).

(** One turn of the loop [for empty_name in empty or []] of
    [runner_input]; [target_name] is [target.name] and [help] is
    [runner_input_help(target)]. *)
Definition set_empty (target_name help : string)
    (available_inputs : Env.Bindings D.Decl.t) (empty_name : string)
    (input_env : Env.Bindings Value.Base) : result (Env.Bindings Value.Base) :=
  decl ← match Env.getitem available_inputs empty_name with
         | Ok decl => Ok decl
         | Err (KeyError _) =>
             die ("No such input to " +:+ target_name +:+ ": " +:+ empty_name
                  +:+ String.String Python.newline help)
         | Err e => Err e
         end;
  match D.Decl.type decl with
  | T.Array item_type _ false =>
      Ok (Env.bind input_env empty_name (Value.Array item_type [])
            (Some decl))
  | ty =>
      die ("Cannot set input " +:+ T.to_display_string ty +:+ " "
           +:+ D.Decl.name decl +:+ " to empty array")
  end.

(** The part of [runner_input] that sets the explicitly empty arrays. *)
Definition runner_input_empty (target_name help : string)
    (available_inputs : Env.Bindings D.Decl.t) (empty : option (list string))
    (input_env : Env.Bindings Value.Base) : result (Env.Bindings Value.Base) :=
  for_each (set_empty target_name help available_inputs) (default [] empty)
    input_env.


(** [is_constant_expr].  The list comprehension of the [Array] case
    collects the items that are not constant; the array is constant when
    that list is empty. *)
Fixpoint is_constant_expr (expr : E.Base) : bool :=
  match expr with
  | E.Int _ _ | E.Float _ _ | E.Boolean _ _ => true
  | E.String _ parts =>
      bool_decide (length parts = 2)
      || (bool_decide (length parts = 3)
          && match parts !! 1 with Some (inl _) => true | _ => false end)
  | E.Array _ items =>
      let not_constant :=
        (fix collect (xs : list E.Base) : list E.Base :=
           match xs with
           | [] => []
           | item :: xs' =>
               if negb (is_constant_expr item) then item :: collect xs'
               else collect xs'
           end) items in
      match not_constant with [] => true | _ => false end
  | _ => false
  end.

(** What [runner_input_value] asks of the interpreter and of the host:
    [int(s)] and [float(s)], which raise on a text that is no number,
    [runtime.download.able], [os.path.isfile] and
    [os.path.abspath(os.path.expanduser(s))]. *)
Class Host := {
  int_of_str : string → result Z;
  float_of_str : string → result spec_float;
  downloadable : string → bool;
  isfile : string → bool;
  abspath : string → string
}.

Section runner_input_value.
Context `{H : Host}.

(** [runner_input_value] *)
Fixpoint runner_input_value (s_value : string) (ty : T.Base)
  : result Value.Base :=
  match ty with
  | T.String _ => Ok (Value.String s_value)
  | T.File _ =>
      if negb (downloadable s_value || isfile s_value)
      then die ("File not found: " +:+ s_value)
      else Ok (Value.File (if negb (downloadable s_value)
                           then abspath s_value else s_value))
  | T.Boolean _ =>
      if bool_decide (s_value = "true") then Ok (Value.Boolean true)
      else if bool_decide (s_value = "false") then Ok (Value.Boolean false)
      else die ("Boolean input should be true or false instead of "
                +:+ s_value)
  | T.Int _ => i ← int_of_str s_value; Ok (Value.Int i)
  | T.Float _ => f ← float_of_str s_value; Ok (Value.Float f)
  | T.Array item_type _ _ =>
      match item_type with
      | T.String _ | T.File _ | T.Int _ | T.Float _ =>
          v ← runner_input_value s_value item_type;
          Ok (Value.Array item_type [v])
      | _ =>
          die ("No command-line support yet for inputs of type "
               +:+ T.to_display_string ty
               +:+ "; workaround: specify in JSON file with --input")
      end
  | T.Var =>
      die ("No command-line support yet for inputs of type "
           +:+ T.to_display_string ty
           +:+ "; workaround: specify in JSON file with --input")
  end.

(** [v.type] for the values that [runner_input] meets; [WDL/Value.py] is
    not among the sources, and the type of [Value.Array(item_type, ...)] is
    taken to be [Array[item_type]] without quantifiers. *)
Definition value_type (v : Value.Base) : T.Base :=
  match v with
  | Value.Boolean _ => T.Boolean false
  | Value.Int _ => T.Int false
  | Value.Float _ => T.Float false
  | Value.String _ => T.String false
  | Value.File _ => T.File false
  | Value.Array item_type _ => T.Array item_type false false
  end.

(** [existing.value.extend(more)], where [existing] is the object that
    [input_env[name]] returned: the binding found first under [name] then
    holds the longer list.  Each binding holds an object of its own. *)
Fixpoint extend_binding (input_env : Env.Bindings Value.Base) (name : string)
    (more : list Value.Base) : Env.Bindings Value.Base :=
  match input_env with
  | [] => []
  | b :: outer =>
      if bool_decide (Env.name b = name) then
        {| Env.name := Env.name b;
           Env.value := match Env.value b with
                        | Value.Array item_type vs =>
                            Value.Array item_type (vs ++ more)
                        | v => v
                        end;
           Env.info := Env.info b |} :: outer
      else b :: extend_binding outer name more
  end.

(** One turn of the loop [for one_input in inputs] of [runner_input];
    [target_name] is [target.name], [target_uri] is [target.pos.uri] and
    [help] is [runner_input_help(target)].  A value object is true in
    [if existing:]. *)
Definition add_input (target_name target_uri help : string)
    (available_inputs : Env.Bindings D.Decl.t) (one_input : string)
    (input_env : Env.Bindings Value.Base) : result (Env.Bindings Value.Base) :=
  _ ← match one_input with
      | String.String c _ =>
          if Python.isalpha c then Ok tt
          else die (target_name +:+ " (" +:+ target_uri +:+ ")"
                    +:+ String.String Python.newline
                          (Python.repeat_char Python.hyphen
                             (Z.of_nat (String.length target_name)
                              + Z.of_nat (String.length target_uri) + 3))
                    +:+ String.String Python.newline help)
      | EmptyString =>
          die (target_name +:+ " (" +:+ target_uri +:+ ")"
               +:+ String.String Python.newline
                     (Python.repeat_char Python.hyphen
                        (Z.of_nat (String.length target_name)
                         + Z.of_nat (String.length target_uri) + 3))
               +:+ String.String Python.newline help)
      end;
  match Python.split1 Python.equals_sign one_input with
  | [name; s_value] =>
      if bool_decide (name = EmptyString)
      then die ("Invalid input name=value pair: " +:+ one_input)
      else
        decl ← match Env.getitem available_inputs name with
               | Ok decl => Ok decl
               | Err (KeyError _) =>
                   die ("No such input to " +:+ target_name +:+ ": " +:+ name
                        +:+ String.String Python.newline help)
               | Err e => Err e
               end;
        v ← runner_input_value s_value (D.Decl.type decl);
        match Env.getitem input_env name with
        | Ok existing =>
            match v with
            | Value.Array _ more =>
                _ ← assert (match existing with
                            | Value.Array _ _ => true
                            | _ => false
                            end
                            && T.coerces (value_type v) (value_type existing)
                                 true);
                Ok (extend_binding input_env name more)
            | _ =>
                die ("non-array input " +:+ name +:+ " duplicated"
                     +:+ String.String Python.newline help)
            end
        | Err (KeyError _) => Ok (Env.bind input_env name v (Some decl))
        | Err e => Err e
        end
  | _ => die ("Invalid input name=value pair: " +:+ one_input)
  end.

(** The loop [for one_input in inputs] of [runner_input]. *)
Definition runner_input_inputs (target_name target_uri help : string)
    (available_inputs : Env.Bindings D.Decl.t) (inputs : list string)
    (input_env : Env.Bindings Value.Base) : result (Env.Bindings Value.Base) :=
  for_each (add_input target_name target_uri help available_inputs) inputs
    input_env.

End runner_input_value.

End CLI.

(** ** Instances of the parameters, and values for the examples *)

Module Examples.

(** Modelled from the spec: a function table holding the binary operator
    [_add] of section 3 on integers, for the folding-order scenario of
    section 8 ([b: Int = a+1]). *)
Definition add_function : E.Function :=
  {| E.arity := 2;
     E.infer_result := λ p tys,
       match tys with
       | [T.Int false; T.Int false] => Ok (T.Int false)
       | [l; r] =>
           Err (ValidationError (StaticTypeMismatch (T.Int false)
                                   (if T.is_Int l then r else l)) p None)
       | _ => Err (ValidationError (WrongArity "_add" 2) p None)
       end |}.

#[export] Instance strict : E.Globals :=
  {| E.stdlib := λ f, if bool_decide (f = "_add") then Some add_function
                      else None;
     E.check_quant := true |}.

(** Modelled from the spec: the evaluation of the literals a meta section
    accepts (section 4.5): booleans, numbers, and strings made of literal
    text. *)
#[export] Instance literals : WDL.Evaluator :=
  {| WDL.eval := λ e,
       match e with
       | E.Boolean _ b => Ok (Value.Boolean b)
       | E.Int _ i => Ok (Value.Int i)
       | E.Float _ f => Ok (Value.Float f)
       | E.String _ parts =>
           foldr (λ part acc,
                    match part with
                    | inl s => s' ← acc; Ok (s +:+ s')
                    | inr _ => Err (ValidationError OtherValidation
                                      (E.pos e) None)
                    end) (Ok EmptyString) parts
             ≫= λ s, Ok (Value.String s)
       | _ => Err (ValidationError OtherValidation (E.pos e) None)
       end |}.

(** The message of an exception: its class name. *)
#[export] Instance class_names : CLI.Messages :=
  {| CLI.str := λ e,
       match e with
       | AssertionError => "AssertionError"
       | KeyError k => k
       | IndexError => "IndexError"
       | AttributeError => "AttributeError"
       | TypeError => "TypeError"
       | SystemExit _ _ => "SystemExit"
       | SyntaxError _ => "SyntaxError"
       | ImportError _ _ => "ImportError"
       | ValidationError _ _ _ => "ValidationError"
       | MultipleValidationErrors _ => "MultipleValidationErrors"
       end |}.

Definition here : SourcePosition :=
  {| uri := "t.wdl"; line := 1; column := 1; end_line := 1; end_column := 2 |}.

Definition nowhere : lark.Meta :=
  {| lark.line := 1; lark.column := 1; lark.end_line := 1;
     lark.end_column := 2 |}.

(** [Array[Int]+ xs] *)
Definition xs_decl : D.Decl.t :=
  {| D.Decl.pos := here; D.Decl.type := T.Array (T.Int false) false false;
     D.Decl.name := "xs"; D.Decl.optional := false; D.Decl.nonempty := true;
     D.Decl.expr := None |}.

(** [Array[Int]+ xs], with the quantifier on the type as [CLI.py] reads
    it *)
Definition xs_nonempty : D.Decl.t :=
  {| D.Decl.pos := here; D.Decl.type := T.Array (T.Int false) false true;
     D.Decl.name := "xs"; D.Decl.optional := false; D.Decl.nonempty := true;
     D.Decl.expr := None |}.

End Examples.

(** The declaration [d] with [e] as its expression. *)
Definition with_expr (d : D.Decl.t) (e : E.Base) : D.Decl.t :=
  {| D.Decl.pos := D.Decl.pos d; D.Decl.type := D.Decl.type d;
     D.Decl.name := D.Decl.name d; D.Decl.optional := D.Decl.optional d;
     D.Decl.nonempty := D.Decl.nonempty d; D.Decl.expr := Some e |}.

(** The value the [--empty] option gives to the input [name]: an empty
    array of the item type, when the input is declared with an [Array] type
    that does not carry the [nonempty] flag. *)
Definition empty_array_for (available_inputs : Env.Bindings D.Decl.t)
    (name : string) : option Value.Base :=
  match Env.getitem available_inputs name with
  | Ok decl =>
      match D.Decl.type decl with
      | T.Array item_type _ ne =>
          if ne then None else Some (Value.Array item_type [])
      | _ => None
      end
  | Err _ => None
  end.

(** The (key, value) pairs that the children of a [task] node contribute to
    its dictionary, in order, and their keys. *)
Definition entries (items : list WDL.task_item)
  : list (string * WDL.section_value) :=
  flat_map (λ item,
              match item with
              | WDL.Fragment kvs => kvs
              | WDL.NameToken s => [("name", WDL.Str s)]
              | WDL.Other => []
              end) items.

Definition keys (items : list WDL.task_item) : list string := (entries items).*1.

(** [isinstance(item, dict) or isinstance(item, str)] *)
Definition dict_or_str (item : WDL.task_item) : bool :=
  match item with WDL.Other => false | _ => true end.

(** What a run of stores into the dictionary [d0] leaves under [k]. *)
Definition merged (kvs : list (string * WDL.section_value))
    (d0 : gmap string WDL.section_value) (k : string)
  : option WDL.section_value :=
  match (list_to_map kvs : gmap string WDL.section_value) !! k with
  | Some v => Some v
  | None => d0 !! k
  end.

Module TaskExamples.
Import WDL WDL._TaskTransformer.

Definition runtime_keyword : lark.Token :=
  {| lark.type := "RUNTIME"; lark.value := "runtime" |}.

(** [command { echo }] *)
Definition echo : task_item :=
  Fragment [("command", Command (E.String Examples.here [inl "echo"]))].

(** The children of [task t { runtime {} runtime {} command { echo } }]
    after their own rules. *)
Definition two_runtimes : list task_item :=
  [ NameToken "t";
    meta_section runtime_keyword (Py.Dict []);
    meta_section runtime_keyword (Py.Dict []);
    echo ].

End TaskExamples.

(** ** The parts asked of a string or command literal *)

(** [stored] is [value] without a trailing two-character interpolation-open
    marker. *)
Definition stripped (value stored : string) : Prop :=
  ∃ marker, String.length marker = 2 ∧ value = stored +:+ marker.

(** The part to be stored for an item of a string ([in_command = false]) or
    of a command ([in_command = true]): the text of a fragment token
    without its marker, the text of another token as it is, and a
    placeholder node for an expression. *)
Inductive stored_part (in_command : bool)
  : WDL.text_item → string + E.Base → Prop :=
| stored_fragment t s :
    Python.endswith (lark.type t) "_FRAGMENT" = true →
    stripped (lark.value t) s →
    stored_part in_command (WDL.Tok t) (inl s)
| stored_text t :
    Python.endswith (lark.type t) "_FRAGMENT" = false →
    stored_part in_command (WDL.Tok t) (inl (lark.value t))
| stored_expression e :
    in_command = false →
    stored_part in_command (WDL.Node e) (inr (E.Placeholder (E.pos e) ∅ e))
| stored_placeholder e :
    in_command = true → E.is_Placeholder e = true →
    stored_part in_command (WDL.Node e) (inr e).

(** The grammar's contract on the tokens of a literal: the text of a
    fragment token ends with the interpolation-open marker. *)
Definition fragments_end_with_marker (items : list WDL.text_item) : Prop :=
  ∀ t, WDL.Tok t ∈ items →
       Python.endswith (lark.type t) "_FRAGMENT" = true →
       ∃ stored, stripped (lark.value t) stored.

Module TextExamples.
Import WDL.

(** The items of a literal with one interpolation: the fragment [a${],
    the expression [x] and the closing text [b]. *)
Definition greeting : list text_item :=
  [ Tok {| lark.type := "STRING1_FRAGMENT"; lark.value := "a${" |};
    Node (E.Ident Examples.here ["x"]);
    Tok {| lark.type := "STRING1_END"; lark.value := "b" |} ].

(** The same for a command, whose expression child is a placeholder. *)
Definition echo_x : list text_item :=
  [ Tok {| lark.type := "COMMAND1_FRAGMENT"; lark.value := "echo ${" |};
    Node (E.Placeholder Examples.here ∅ (E.Ident Examples.here ["x"]));
    Tok {| lark.type := "COMMAND1_END"; lark.value := " done" |} ].

End TextExamples.

(** ** Plain values *)

(** No expression node anywhere in a Python value. *)
Fixpoint expr_free (v : Py.t) : bool :=
  match v with
  | Py.List items => forallb expr_free items
  | Py.Dict items =>
      forallb (λ kv, match kv with (_, w) => expr_free w end) items
  | Py.Expr _ => false
  | _ => true
  end.

Module MetaExamples.
Import WDL WDL._TaskTransformer.

Definition key (s : string) : lark.Token :=
  {| lark.type := "CNAME"; lark.value := s |}.

(** The children of
    [task t { command { echo } meta { cores: 2, tags: [true] } }]. *)
Definition with_meta : list task_child :=
  [ name_child (key "t");
    command_child
      [Tok {| lark.type := "COMMAND1_END"; lark.value := "echo" |}]
      Examples.nowhere;
    meta_section_child (key "meta")
      (meta_object_node
         [ (key "cores", meta_literal_node (E.Int Examples.here 2));
           (key "tags",
            meta_array_node
              [meta_literal_node (E.Boolean Examples.here true)]) ]) ].

End MetaExamples.

(** ** Declare before use *)

(** The environment [env] extended with the declarations [ds] in order:
    the last one is the most recent binding. *)
Definition bindings (ds : list D.Decl.t) (env : E.TypeEnv) : E.TypeEnv :=
  foldl (λ env d, E.TypeEnv_bind (D.Decl.name d, D.Decl.type d) env) env ds.

(** Every declaration of [ds] that has an expression has it type-checked
    against the declared type, in [env] extended with the declarations
    before it and with nothing else. *)
Definition checked_in_order `{G : E.Globals} (ds : list D.Decl.t)
    (env : E.TypeEnv) : Prop :=
  ∀ pre d post e,
    ds = pre ++ d :: post → D.Decl.expr d = Some e →
    E.typecheck e (bindings pre env) (D.Decl.type d) = Ok tt.

Module OrderExamples.

Definition literal_command : E.Base := E.String Examples.here [inl "echo"].

(** [Int a] *)
Definition a : D.Decl.t :=
  {| D.Decl.pos := Examples.here; D.Decl.type := T.Int false;
     D.Decl.name := "a"; D.Decl.optional := false; D.Decl.nonempty := false;
     D.Decl.expr := None |}.

(** [Int b = a + 1] *)
Definition b : D.Decl.t :=
  {| D.Decl.pos := Examples.here; D.Decl.type := T.Int false;
     D.Decl.name := "b"; D.Decl.optional := false; D.Decl.nonempty := false;
     D.Decl.expr :=
       Some (E.Apply Examples.here "_add"
               [E.Ident Examples.here ["a"]; E.Int Examples.here 1]) |}.

Definition task_with (inputs : list D.Decl.t) : D.Task.t :=
  {| D.Task.pos := Examples.here; D.Task.name := "t";
     D.Task.inputs := inputs; D.Task.postinputs := [];
     D.Task.command := literal_command; D.Task.outputs := [];
     D.Task.parameter_meta := Py.Dict []; D.Task.runtime := Py.Dict [];
     D.Task.meta := Py.Dict [] |}.

End OrderExamples.

(** ** Diagnostics *)

(** The line of [source_text] that an error at [pos] reports, with tabs
    shown as spaces. *)
Definition reported_line (pos : SourcePosition) (source_text : string)
  : result string :=
  raw ← Python.getitem (Python.split Python.newline source_text) (line pos - 1);
  Ok (Python.replace Python.tab Python.space raw).

(** The column after the span on the reported line, before any trimming:
    [end_column], or one past the end of the line for a span that goes on
    to later lines. *)
Definition span_end (pos : SourcePosition) (error_line : string) : Z :=
  if (end_line pos >? line pos)%Z
  then (Z.of_nat (String.length error_line) + 1)%Z
  else end_column pos.

(** An underline of carets over the columns [column .. end - 1], behind
    the four-space margin of the excerpt. *)
Definition underline (column end_ : Z) : string :=
  "    " +:+ Python.repeat_char Python.space (column - 1)
  +:+ Python.repeat_char Python.caret (end_ - column).

(** The underline as the claim words it: over [column, end_column) on the
    reported line, and up to the end of that line for a span of several
    lines. *)
Definition claimed_underline (pos : SourcePosition) (error_line : string)
  : string :=
  underline (column pos) (span_end pos error_line).

(** The character shown at a (1-based) column of a line is a blank. *)
Definition blank_at (error_line : string) (col : Z) : Prop :=
  Python.str_getitem error_line (col - 1) = Ok Python.space.

(** A mismatch that relaxed quantifier checking would accept. *)
Definition relaxed_accepts (kind : validation_kind) : bool :=
  match kind with
  | StaticTypeMismatch expected actual => T.coerces actual expected false
  | _ => false
  end.

(** Some error that [print_error] visits is a mismatch that relaxed
    checking would accept, as the claim words it. *)
Fixpoint mismatch_seen (e : exn) : bool :=
  match e with
  | MultipleValidationErrors exceptions => existsb mismatch_seen exceptions
  | ImportError _ (Some cause) => mismatch_seen cause
  | ValidationError kind _ _ => relaxed_accepts kind
  | _ => false
  end.

(** The same, counting only the errors that carry a source text. *)
Fixpoint mismatch_recorded (e : exn) : bool :=
  match e with
  | MultipleValidationErrors exceptions => existsb mismatch_recorded exceptions
  | ImportError _ (Some cause) => mismatch_recorded cause
  | ValidationError kind _ (Some source_text) =>
      bool_decide (source_text ≠ EmptyString) && relaxed_accepts kind
  | _ => false
  end.

Module DiagnosticExamples.

(** Two lines, the first with two blanks at its end. *)
Definition two_lines : string :=
  "if x  " +:+ String.String Python.newline "then y".

(** A span from line 1, column 1 to line 2, column 7. *)
Definition both_lines : SourcePosition :=
  {| uri := "t.wdl"; line := 1; column := 1; end_line := 2; end_column := 7 |}.

(** [Int] where [Array[Int]] is expected. *)
Definition int_for_array : validation_kind :=
  StaticTypeMismatch (T.Array (T.Int false) false false) (T.Int false).

End DiagnosticExamples.

(** The last declaration of the name [x] among [ds], if any. *)
Definition last_declared (x : string) (ds : list D.Decl.t) : option D.Decl.t :=
  last (filter (λ d, D.Decl.name d = x) ds).

(** The lines that [print_error] writes for an error that shows no source
    excerpt: the headline of each error in turn, and after an
    [ImportError] those of its cause, or [None] for a cause that is not
    set. *)
Fixpoint headlines `{M : CLI.Messages} (e : exn) : list string :=
  match e with
  | MultipleValidationErrors exceptions => flat_map headlines exceptions
  | ImportError _ (Some cause) => CLI.headline e :: headlines cause
  | ImportError _ None => [CLI.headline e; "None"]
  | _ => [CLI.headline e]
  end.

(** No error of [e] carries a source text. *)
Fixpoint without_source (e : exn) : bool :=
  match e with
  | MultipleValidationErrors exceptions => forallb without_source exceptions
  | ImportError _ (Some cause) => without_source cause
  | ValidationError _ _ (Some source_text) =>
      bool_decide (source_text = EmptyString)
  | _ => true
  end.

(** The expression computes something: it is an application, a
    conditional, an identifier or a placeholder, or an array with such an
    item. *)
Fixpoint computes (e : E.Base) : bool :=
  match e with
  | E.Apply _ _ _ | E.IfThenElse _ _ _ _ | E.Ident _ _
  | E.Placeholder _ _ _ => true
  | E.Array _ items => existsb computes items
  | _ => false
  end.

(** The runtime value [v] is of a shape that the type [ty] allows. *)
Fixpoint value_has_type (v : Value.Base) (ty : T.Base) : bool :=
  match v, ty with
  | Value.String _, T.String _ | Value.File _, T.File _
  | Value.Boolean _, T.Boolean _ | Value.Int _, T.Int _
  | Value.Float _, T.Float _ => true
  | Value.Array item vs, T.Array item' _ _ =>
      (if T.Base_eq_dec item item' then true else false)
      && forallb (λ w, value_has_type w item') vs
  | _, _ => false
  end.

(** The types whose inputs [runner_input_value] reads from the command
    line: the five scalars, and arrays of strings, files, integers or
    floats. *)
Definition on_command_line (ty : T.Base) : bool :=
  match ty with
  | T.String _ | T.File _ | T.Boolean _ | T.Int _ | T.Float _ => true
  | T.Array (T.String _) _ _ | T.Array (T.File _) _ _
  | T.Array (T.Int _) _ _ | T.Array (T.Float _) _ _ => true
  | _ => false
  end.

Module HostExamples.

(** A host on which [int] reads [7] only, [float] reads nothing, no URI can
    be downloaded and every file exists under its own name. *)
#[export] Instance simple : CLI.Host :=
  {| CLI.int_of_str := λ s, if bool_decide (s = "7") then Ok 7%Z
                            else Err AssertionError;
     CLI.float_of_str := λ _, Err AssertionError;
     CLI.downloadable := λ _, false;
     CLI.isfile := λ _, true;
     CLI.abspath := λ s, s |}.

(** [Array[String] names] and [Int n] *)
Definition names : D.Decl.t :=
  {| D.Decl.pos := Examples.here;
     D.Decl.type := T.Array (T.String false) false false;
     D.Decl.name := "names"; D.Decl.optional := false;
     D.Decl.nonempty := false; D.Decl.expr := None |}.

Definition n : D.Decl.t :=
  {| D.Decl.pos := Examples.here; D.Decl.type := T.Int false;
     D.Decl.name := "n"; D.Decl.optional := false;
     D.Decl.nonempty := false; D.Decl.expr := None |}.

Definition available : Env.Bindings D.Decl.t :=
  [ {| Env.name := "names"; Env.value := names; Env.info := None |};
    {| Env.name := "n"; Env.value := n; Env.info := None |} ].

End HostExamples.

(** * Properties *)

(** ** Loops *)

Lemma for_each_app {A S : Type} (f : A → S → result S) (xs ys : list A) (s : S) :
  for_each f (xs ++ ys) s = for_each f xs s ≫= for_each f ys.
Proof.
  revert s. induction xs as [|x xs IH]; intros s; simpl; [done|].
  destruct (f x s) as [s'|e]; simpl; [apply IH | done].
Qed.

(** ** Construction of declarations *)

Section decl_construction.
Context `{G : E.Globals}.

(** C2.  Constructing a declaration with [nonempty = true] fails with the
    [IncompatibleOperand] quantifier error exactly when the type is not an
    [Array], and otherwise yields the declaration with the given fields.
    The check belongs to construction only: type-checking a declaration
    never reads the [nonempty] field. *)
Theorem C2_nonempty_only_on_arrays
    (pos : SourcePosition) (ty : T.Base) (name : string) (optional : bool)
    (expr : option E.Base) :
  (T.is_Array ty = false →
     D.Decl.__init__ pos ty name optional true expr
     = Err (ValidationError
              (IncompatibleOperand "nonempty quantifier (+) on non-Array type")
              pos None))
  ∧ (T.is_Array ty = true →
       D.Decl.__init__ pos ty name optional true expr
       = Ok {| D.Decl.pos := pos; D.Decl.type := ty; D.Decl.name := name;
               D.Decl.optional := optional; D.Decl.nonempty := true;
               D.Decl.expr := expr |})
  ∧ (∀ (ne : bool) (env : E.TypeEnv),
       D._typecheck_decl
         {| D.Decl.pos := pos; D.Decl.type := ty; D.Decl.name := name;
            D.Decl.optional := optional; D.Decl.nonempty := ne;
            D.Decl.expr := expr |} env
       = D._typecheck_decl
           {| D.Decl.pos := pos; D.Decl.type := ty; D.Decl.name := name;
              D.Decl.optional := optional; D.Decl.nonempty := true;
              D.Decl.expr := expr |} env).
Proof.
  unfold D.Decl.__init__. repeat split.
  - intros ->. reflexivity.
  - intros ->. reflexivity.
Qed.

End decl_construction.

Lemma C2_example :
  D.Decl.__init__ Examples.here (T.Int false) "n" false true None
  = Err (ValidationError
           (IncompatibleOperand "nonempty quantifier (+) on non-Array type")
           Examples.here None)
  ∧ D.Decl.__init__ Examples.here (T.Array (T.Int false) false false) "xs"
      false true None
    = Ok Examples.xs_decl.
Proof.
  split.
  - apply (proj1 (C2_nonempty_only_on_arrays (G := Examples.strict)
             Examples.here (T.Int false) "n" false None)).
    reflexivity.
  - apply (proj1 (proj2 (C2_nonempty_only_on_arrays (G := Examples.strict)
             Examples.here (T.Array (T.Int false) false false) "xs" false None))).
    reflexivity.
Defined.

(** ** Binding an expression to a declaration *)

Lemma init_invariant pos ty name optional nonempty expr d :
  D.Decl.__init__ pos ty name optional nonempty expr = Ok d →
  D.Decl.nonempty d && negb (T.is_Array (D.Decl.type d)) = false.
Proof.
  unfold D.Decl.__init__.
  destruct (nonempty && negb (T.is_Array ty)) eqn:Hq; [done|].
  by intros [= <-].
Qed.

Lemma bind_constructed (d : D.Decl.t) (e : E.Base) :
  D.Decl.nonempty d && negb (T.is_Array (D.Decl.type d)) = false →
  D.Decl.bind d e = Ok (with_expr d e).
Proof.
  intros Hq. unfold D.Decl.bind, D.Decl.__init__. by rewrite Hq.
Qed.

(** C7.  For a declaration [d] that construction produced, held at address
    [self] of the store, [d.bind(e)] returns a declaration with the fields
    [pos], [type], [name], [optional] and [nonempty] of [d] and with
    expression [e]; it is a new object, at an address that was free, and
    the object at [self], like every other object of the store, is what it
    was before the call. *)
Theorem C7_bind_is_pure
    (σ : gmap positive D.Decl.t) (self : positive) (d : D.Decl.t) (e : E.Base)
    (pos : SourcePosition) (ty : T.Base) (name : string)
    (optional nonempty : bool) (expr : option E.Base) :
  D.Decl.__init__ pos ty name optional nonempty expr = Ok d →
  σ !! self = Some d →
  D.Decl.bind d e = Ok (with_expr d e)
  ∧ D.Decl.pos (with_expr d e) = D.Decl.pos d
  ∧ D.Decl.type (with_expr d e) = D.Decl.type d
  ∧ D.Decl.name (with_expr d e) = D.Decl.name d
  ∧ D.Decl.optional (with_expr d e) = D.Decl.optional d
  ∧ D.Decl.nonempty (with_expr d e) = D.Decl.nonempty d
  ∧ D.Decl.expr (with_expr d e) = Some e
  ∧ ∃ (ref : positive) (σ' : gmap positive D.Decl.t),
      D.Decl.bind_ref self e σ = Ok (ref, σ')
      ∧ σ !! ref = None
      ∧ σ' !! ref = Some (with_expr d e)
      ∧ σ' !! self = Some d
      ∧ ∀ r, r ≠ ref → σ' !! r = σ !! r.
Proof.
  intros Hinit Hself.
  pose proof (init_invariant _ _ _ _ _ _ _ Hinit) as Hq.
  split; [by apply bind_constructed|].
  repeat (split; [reflexivity|]).
  set (ref := fresh (dom σ)).
  assert (σ !! ref = None) as Hfresh.
  { apply not_elem_of_dom. apply is_fresh. }
  exists ref, (<[ref := with_expr d e]> σ).
  split.
  { unfold D.Decl.bind_ref, D.Decl.new. rewrite Hself.
    change (D.Decl.__init__ _ _ _ _ _ (Some e)) with (D.Decl.bind d e).
    by rewrite bind_constructed. }
  split; [done|].
  split; [by rewrite lookup_insert_eq|].
  split.
  - rewrite lookup_insert_ne; [done|]. intros ->. congruence.
  - intros r Hr. by rewrite lookup_insert_ne.
Qed.

Lemma C7_example :
  D.Decl.bind Examples.xs_decl (E.Array Examples.here [])
  = Ok (with_expr Examples.xs_decl (E.Array Examples.here []))
  ∧ ∃ ref σ',
      D.Decl.bind_ref 1%positive (E.Array Examples.here [])
        {[ 1%positive := Examples.xs_decl ]}
      = Ok (ref, σ')
      ∧ σ' !! 1%positive = Some Examples.xs_decl.
Proof.
  destruct (C7_bind_is_pure {[ 1%positive := Examples.xs_decl ]} 1%positive
              Examples.xs_decl (E.Array Examples.here []) Examples.here
              (T.Array (T.Int false) false false) "xs" false true None)
    as (Hb & _ & _ & _ & _ & _ & _ & ref & σ' & Hr & _ & _ & Hs & _).
  - reflexivity.
  - apply lookup_singleton_eq.
  - split; [exact Hb|]. exists ref, σ'. split; [exact Hr | exact Hs].
Defined.

(** ** Explicitly empty array inputs *)

Section runner_input_empty.
Variables (target_name help : string).
Variable available_inputs : Env.Bindings D.Decl.t.

Local Abbreviation set_empty := (CLI.set_empty target_name help available_inputs).
Local Abbreviation loop :=
  (for_each (CLI.set_empty target_name help available_inputs)).

Lemma set_empty_rejects name decl env :
  Env.getitem available_inputs name = Ok decl →
  T.is_Array (D.Decl.type decl) = false ∨ T.nonempty (D.Decl.type decl) = true →
  ∃ msg, set_empty name env = Err (SystemExit msg 2).
Proof.
  intros Hd Hr. unfold CLI.set_empty. rewrite Hd. simpl.
  destruct (D.Decl.type decl) as [| | | | |item o [|]|] eqn:Hty;
    simpl in Hr; try (eexists; reflexivity).
  destruct Hr; discriminate.
Qed.

Lemma set_empty_binds name decl env item o :
  Env.getitem available_inputs name = Ok decl →
  D.Decl.type decl = T.Array item o false →
  set_empty name env
  = Ok (Env.bind env name (Value.Array item []) (Some decl)).
Proof.
  intros Hd Hty. unfold CLI.set_empty. rewrite Hd. simpl. by rewrite Hty.
Qed.

Lemma set_empty_accepted name env v :
  empty_array_for available_inputs name = Some v →
  ∃ decl, set_empty name env = Ok (Env.bind env name v (Some decl)).
Proof.
  unfold empty_array_for. intros Hv.
  destruct (Env.getitem available_inputs name) as [decl|] eqn:Hd; [|done].
  destruct (D.Decl.type decl) as [| | | | |item o [|]|] eqn:Hty; try done.
  injection Hv as <-. exists decl. by eapply set_empty_binds.
Qed.

Lemma set_empty_exits name env e :
  set_empty name env = Err e → ∃ msg, e = SystemExit msg 2.
Proof.
  unfold CLI.set_empty.
  destruct (Env.getitem available_inputs name) as [decl|e'] eqn:Hd; simpl.
  - destruct (D.Decl.type decl) as [| | | | |item o [|]|];
      intros [= <-]; eexists; reflexivity.
  - assert (e' = KeyError name) as ->.
    { clear -Hd. induction available_inputs as [|b bs IH]; simpl in Hd.
      - by injection Hd as <-.
      - destruct (bool_decide _); [done | by apply IH]. }
    intros [= <-]. eexists; reflexivity.
Qed.

Lemma loop_exits names env e :
  loop names env = Err e → ∃ msg, e = SystemExit msg 2.
Proof.
  revert env. induction names as [|n names IH]; intros env; simpl; [done|].
  destruct (set_empty n env) as [env'|e'] eqn:Hs; simpl.
  - apply IH.
  - intros [= <-]. by eapply set_empty_exits.
Qed.

Lemma loop_rejects names name decl env :
  name ∈ names →
  Env.getitem available_inputs name = Ok decl →
  T.is_Array (D.Decl.type decl) = false ∨ T.nonempty (D.Decl.type decl) = true →
  ∃ msg, loop names env = Err (SystemExit msg 2).
Proof.
  intros Hin Hd Hr. revert env.
  induction names as [|n names IH]; intros env; [by apply elem_of_nil in Hin|].
  simpl. destruct (set_empty n env) as [env'|e] eqn:Hs; simpl.
  - apply elem_of_cons in Hin as [<-|Hin]; [|by apply IH].
    destruct (set_empty_rejects name decl env Hd Hr) as [msg Hm]. congruence.
  - destruct (set_empty_exits _ _ _ Hs) as [msg ->]. by exists msg.
Qed.

Lemma loop_binds names env :
  (∀ n, n ∈ names → is_Some (empty_array_for available_inputs n)) →
  ∃ env', loop names env = Ok env'
    ∧ ∀ n, Env.getitem env' n
           = if bool_decide (n ∈ names)
             then match empty_array_for available_inputs n with
                  | Some v => Ok v
                  | None => Env.getitem env n
                  end
             else Env.getitem env n.
Proof.
  revert env. induction names as [|n0 names IH]; intros env Hall.
  - exists env. split; [done|]. intros n. by rewrite bool_decide_eq_false_2
      by apply not_elem_of_nil.
  - destruct (Hall n0) as [v0 Hv0]; [by left|].
    destruct (set_empty_accepted n0 env v0 Hv0) as [d0 Hs].
    destruct (IH (Env.bind env n0 v0 (Some d0))) as (env' & Hloop & Hget).
    { intros n Hn. apply Hall. by right. }
    exists env'. split; [simpl; by rewrite Hs|].
    intros n. rewrite Hget. simpl.
    destruct (decide (n ∈ names)) as [Hn|Hn].
    + rewrite (bool_decide_eq_true_2 _ Hn).
      rewrite (bool_decide_eq_true_2 (n ∈ n0 :: names)) by (by right).
      destruct (Hall n) as [v Hv]; [by right|]. by rewrite Hv.
    + rewrite (bool_decide_eq_false_2 _ Hn).
      destruct (decide (n0 = n)) as [->|Hne].
      * rewrite (bool_decide_eq_true_2 (n = n)) by done.
        rewrite (bool_decide_eq_true_2 (n ∈ n :: names)) by (by left).
        by rewrite Hv0.
      * rewrite (bool_decide_eq_false_2 _ Hne).
        rewrite (bool_decide_eq_false_2 (n ∈ n0 :: names)); [done|].
        intros [->|?]%elem_of_cons; done.
Qed.

(** C9.  For an input [name] given to [--empty] and declared by [decl]:
    when the type of [decl] is not an [Array], or carries the [nonempty]
    flag, the request is rejected, there and for the whole option, by
    exiting with status 2; when the type is an [Array] without the flag,
    the input is bound to an empty array of its item type, and when that
    holds of every name of the option the resolver succeeds with each of
    them so bound.  The rejection is the resolver's: construction accepts
    a [nonempty] declaration of [Array] type. *)
Theorem C9_empty_option
    (empty : list string) (name : string) (decl : D.Decl.t)
    (input_env : Env.Bindings Value.Base) :
  name ∈ empty →
  Env.getitem available_inputs name = Ok decl →
  (T.is_Array (D.Decl.type decl) = false
   ∨ T.nonempty (D.Decl.type decl) = true →
     (∃ msg, set_empty name input_env = Err (SystemExit msg 2))
     ∧ ∃ msg, CLI.runner_input_empty target_name help available_inputs
                (Some empty) input_env = Err (SystemExit msg 2))
  ∧ (∀ item o, D.Decl.type decl = T.Array item o false →
       set_empty name input_env
       = Ok (Env.bind input_env name (Value.Array item []) (Some decl))
       ∧ ((∀ n, n ∈ empty → is_Some (empty_array_for available_inputs n)) →
          ∃ env', CLI.runner_input_empty target_name help available_inputs
                    (Some empty) input_env = Ok env'
                  ∧ Env.getitem env' name = Ok (Value.Array item [])))
  ∧ (∀ pos item o n optional expr,
       D.Decl.__init__ pos (T.Array item o true) n optional true expr
       = Ok {| D.Decl.pos := pos; D.Decl.type := T.Array item o true;
               D.Decl.name := n; D.Decl.optional := optional;
               D.Decl.nonempty := true; D.Decl.expr := expr |}).
Proof.
  intros Hin Hd. split; [|split].
  - intros Hr. split; [by eapply set_empty_rejects|].
    unfold CLI.runner_input_empty. simpl. by eapply loop_rejects.
  - intros item o Hty. split; [by apply (set_empty_binds _ _ _ item o)|].
    intros Hall. unfold CLI.runner_input_empty. simpl.
    destruct (loop_binds empty input_env Hall) as (env' & Hloop & Hget).
    exists env'. split; [done|]. rewrite Hget.
    rewrite bool_decide_eq_true_2 by done.
    unfold empty_array_for. by rewrite Hd, Hty.
  - reflexivity.
Qed.

End runner_input_empty.

Lemma C9_example :
  ∃ msg,
    CLI.runner_input_empty "t" ""
      [ {| Env.name := "xs"; Env.value := Examples.xs_nonempty;
           Env.info := None |} ] (Some ["xs"]) []
    = Err (SystemExit msg 2).
Proof.
  refine (proj2 (proj1 (C9_empty_option "t" ""
    [ {| Env.name := "xs"; Env.value := Examples.xs_nonempty;
         Env.info := None |} ] ["xs"] "xs" Examples.xs_nonempty [] _ _) _)).
  - apply list_elem_of_In. left. reflexivity.
  - reflexivity.
  - right. reflexivity.
Defined.

(** ** The dictionary of sections of a task *)

Section sections.
Import WDL WDL._TaskTransformer.

Lemma sections_unfold items :
  sections items = for_each merge_item items ∅.
Proof. reflexivity. Qed.

Lemma store_section_cases k v (d : gmap string section_value) :
  (d !! k = None ∧ store_section (k, v) d = Ok (<[k := v]> d))
  ∨ (is_Some (d !! k) ∧ store_section (k, v) d = Err AssertionError).
Proof.
  unfold store_section, Python.dict_contains.
  destruct (d !! k) as [w|] eqn:Hk.
  - right. split; [by eexists|].
    by rewrite bool_decide_eq_true_2 by (by eexists).
  - left. split; [done|].
    rewrite bool_decide_eq_false_2; [done|]. by intros [? ?].
Qed.

Lemma stores_ok kvs (d0 : gmap string section_value) :
  NoDup kvs.*1 → (∀ k, k ∈ kvs.*1 → d0 !! k = None) →
  ∃ d, for_each store_section kvs d0 = Ok d ∧ ∀ k, d !! k = merged kvs d0 k.
Proof.
  revert d0. induction kvs as [|[k v] kvs IH]; intros d0 Hnd Hfresh.
  - exists d0. split; [done|]. intros k. unfold merged. simpl.
    by rewrite lookup_empty.
  - rewrite fmap_cons in Hnd. apply NoDup_cons in Hnd as [Hk Hnd].
    destruct (store_section_cases k v d0) as [[_ Hs]|[[w Hw] _]].
    2:{ rewrite Hfresh in Hw; [done|]. rewrite fmap_cons. by left. }
    destruct (IH (<[k := v]> d0) Hnd) as (d & Hd & Hl).
    { intros k' Hk'. rewrite lookup_insert_ne; [|by intros ->].
      apply Hfresh. rewrite fmap_cons. by right. }
    exists d. split.
    { change (for_each store_section ((k, v) :: kvs) d0)
        with (store_section (k, v) d0 ≫= for_each store_section kvs).
      by rewrite Hs. }
    intros k'. rewrite Hl. unfold merged. simpl.
    destruct (decide (k = k')) as [<-|Hne].
    + rewrite lookup_insert_eq.
      by rewrite (proj1 (not_elem_of_list_to_map _ _) Hk), lookup_insert_eq.
    + rewrite (lookup_insert_ne (list_to_map kvs)) by done.
      by rewrite lookup_insert_ne by done.
Qed.

Lemma stores_inv kvs (d0 d : gmap string section_value) :
  for_each store_section kvs d0 = Ok d →
  NoDup kvs.*1 ∧ ∀ k, k ∈ kvs.*1 → d0 !! k = None.
Proof.
  revert d0. induction kvs as [|[k v] kvs IH]; intros d0 Hd.
  - split; [constructor|]. intros k Hk. by apply elem_of_nil in Hk.
  - change (for_each store_section ((k, v) :: kvs) d0)
      with (store_section (k, v) d0 ≫= for_each store_section kvs) in Hd.
    destruct (store_section_cases k v d0) as [[Hk Hs]|[_ Hs]];
      rewrite Hs in Hd; [|done].
    destruct (IH _ Hd) as [Hnd Hfresh]. rewrite fmap_cons. split.
    + apply NoDup_cons. split; [|done]. intros Hin.
      specialize (Hfresh k Hin). by rewrite lookup_insert_eq in Hfresh.
    + intros k' [->|Hk']%elem_of_cons; [done|].
      specialize (Hfresh k' Hk').
      destruct (decide (k = k')) as [<-|Hne].
      * by rewrite lookup_insert_eq in Hfresh.
      * by rewrite lookup_insert_ne in Hfresh.
Qed.

Lemma stores_err kvs (d0 : gmap string section_value) e :
  for_each store_section kvs d0 = Err e → e = AssertionError.
Proof.
  revert d0. induction kvs as [|[k v] kvs IH]; intros d0 Hd; [done|].
  change (for_each store_section ((k, v) :: kvs) d0)
    with (store_section (k, v) d0 ≫= for_each store_section kvs) in Hd.
  destruct (store_section_cases k v d0) as [[_ Hs]|[_ Hs]]; rewrite Hs in Hd.
  - by eapply IH.
  - by injection Hd as <-.
Qed.

Lemma merge_flat items (d0 : gmap string section_value) :
  forallb dict_or_str items = true →
  for_each merge_item items d0 = for_each store_section (entries items) d0.
Proof.
  revert d0. induction items as [|item items IH]; intros d0 Hall; [done|].
  apply andb_prop in Hall as [Hi Hall]. unfold entries. simpl.
  fold (entries items). rewrite for_each_app.
  destruct item as [kvs|s|]; [| |done].
  - simpl. destruct (for_each store_section kvs d0); simpl; [by apply IH|done].
  - change (merge_item (NameToken s) d0) with (store_section ("name", Str s) d0).
    change (for_each store_section [("name", Str s)] d0)
      with (store_section ("name", Str s) d0 ≫= Ok).
    destruct (store_section ("name", Str s) d0); simpl; [by apply IH|done].
Qed.

Lemma merge_err items (d0 : gmap string section_value) e :
  for_each merge_item items d0 = Err e → e = AssertionError.
Proof.
  revert d0. induction items as [|item items IH]; intros d0 Hd; [done|].
  simpl in Hd. destruct (merge_item item d0) as [d|e'] eqn:Hm; simpl in Hd.
  - by eapply IH.
  - injection Hd as <-. destruct item as [kvs|s|].
    + by eapply stores_err.
    + destruct (store_section_cases "name" (Str s) d0) as [[_ Hs]|[_ Hs]];
        change (merge_item (NameToken s) d0)
          with (store_section ("name", Str s) d0) in Hm; congruence.
    + by injection Hm as <-.
Qed.

Lemma merge_inv items (d0 d : gmap string section_value) :
  for_each merge_item items d0 = Ok d →
  forallb dict_or_str items = true.
Proof.
  revert d0. induction items as [|item items IH]; intros d0 Hd; [done|].
  simpl in Hd. destruct (merge_item item d0) as [d1|] eqn:Hm; [|done].
  simpl in Hd. simpl. rewrite (IH _ Hd). by destruct item.
Qed.

(** The dictionary exists exactly when every child is a fragment or a
    name and no key comes twice; then it holds the entries. *)
Lemma sections_ok items :
  forallb dict_or_str items = true → NoDup (keys items) →
  ∃ d, sections items = Ok d
       ∧ ∀ k, d !! k = (list_to_map (entries items) : gmap _ _) !! k.
Proof.
  intros Hall Hnd. rewrite sections_unfold, merge_flat by done.
  destruct (stores_ok (entries items) ∅ Hnd) as (d & Hd & Hl).
  { intros k _. apply lookup_empty. }
  exists d. split; [done|]. intros k. rewrite Hl. unfold merged.
  destruct (list_to_map _ !! k); [done|apply lookup_empty].
Qed.

Lemma sections_duplicate items :
  forallb dict_or_str items = false ∨ ¬ NoDup (keys items) →
  sections items = Err AssertionError.
Proof.
  intros Hbad. rewrite sections_unfold.
  destruct (for_each merge_item items ∅) as [d|e] eqn:Hd.
  - pose proof (merge_inv _ _ _ Hd) as Hall.
    rewrite merge_flat in Hd by done.
    apply stores_inv in Hd as [Hnd _].
    destruct Hbad as [Hbad|Hbad]; [congruence | done].
  - f_equal. by eapply merge_err.
Qed.

End sections.

(** ** Assembling a task from its sections *)

Section task_assembly.
Import WDL WDL._TaskTransformer.

Lemma well_shaped_dict_or_str items :
  forallb well_shaped_item items = true → forallb dict_or_str items = true.
Proof.
  induction items as [|item items IH]; [done|]. simpl.
  intros [Hi Hall]%andb_prop. rewrite (IH Hall). by destruct item.
Qed.

Lemma entries_well_shaped items k v :
  forallb well_shaped_item items = true →
  (k, v) ∈ entries items → well_shaped k v = true.
Proof.
  induction items as [|item items IH]; intros Hall Hin.
  - by apply elem_of_nil in Hin.
  - simpl in Hall. apply andb_prop in Hall as [Hi Hall].
    unfold entries in Hin. simpl in Hin. apply elem_of_app in Hin as [Hin|Hin].
    + destruct item as [kvs|s|]; simpl in *.
      * rewrite forallb_forall in Hi.
        apply (Hi (k, v)). by apply list_elem_of_In.
      * apply list_elem_of_singleton in Hin. by injection Hin as -> ->.
      * by apply elem_of_nil in Hin.
    + by apply IH.
Qed.

Ltac section_key d Hshape k :=
  let v := fresh "v" in
  let H := fresh "Hk" in
  let Hs := fresh "Hs" in
  destruct (d !! k) as [v|] eqn:H;
  [ pose proof (Hshape k v H) as Hs;
    destruct v; try (exfalso; vm_compute in Hs; discriminate Hs); clear Hs
  | ].

(** C10.  For the children of a task node whose section keys are
    distinct: the task is not built when the name token is missing
    ([KeyError] on [name]) or when the command section is missing
    ([KeyError] on [command]); when both are there it is built, each of
    [inputs], [decls] (the post-input declarations), [outputs],
    [parameter_meta], [runtime] and [meta] that is absent being the empty
    list or the empty mapping, and each section that is present being
    stored as it was given. *)
Theorem C10_task_defaults (items : list task_item) (meta : lark.Meta) :
  NoDup (keys items) →
  forallb well_shaped_item items = true →
  ("name" ∉ keys items → task items meta = Err (KeyError "name"))
  ∧ ("name" ∈ keys items → "command" ∉ keys items →
       task items meta = Err (KeyError "command"))
  ∧ ("name" ∈ keys items → "command" ∈ keys items →
       ∃ tk, task items meta = Ok tk
         ∧ ("inputs" ∉ keys items → D.Task.inputs tk = [])
         ∧ ("decls" ∉ keys items → D.Task.postinputs tk = [])
         ∧ ("outputs" ∉ keys items → D.Task.outputs tk = [])
         ∧ ("parameter_meta" ∉ keys items →
              D.Task.parameter_meta tk = Py.Dict [])
         ∧ ("runtime" ∉ keys items → D.Task.runtime tk = Py.Dict [])
         ∧ ("meta" ∉ keys items → D.Task.meta tk = Py.Dict [])
         ∧ (∀ s, ("name", Str s) ∈ entries items → D.Task.name tk = s)
         ∧ (∀ e, ("command", Command e) ∈ entries items →
              D.Task.command tk = e)
         ∧ (∀ ds, ("inputs", Decls ds) ∈ entries items →
              D.Task.inputs tk = ds)
         ∧ (∀ ds, ("decls", Decls ds) ∈ entries items →
              D.Task.postinputs tk = ds)
         ∧ (∀ ds, ("outputs", Decls ds) ∈ entries items →
              D.Task.outputs tk = ds)
         ∧ (∀ m, ("parameter_meta", Mapping m) ∈ entries items →
              D.Task.parameter_meta tk = m)
         ∧ (∀ m, ("runtime", Mapping m) ∈ entries items →
              D.Task.runtime tk = m)
         ∧ (∀ m, ("meta", Mapping m) ∈ entries items →
              D.Task.meta tk = m)).
Proof.
  intros Hnd Hws.
  pose proof (well_shaped_dict_or_str _ Hws) as Hds.
  destruct (sections_ok items Hds Hnd) as (d & Hsec & Hl).
  assert (∀ k v, (k, v) ∈ entries items ↔ d !! k = Some v) as Hent.
  { intros k v. rewrite Hl. split.
    - by apply elem_of_list_to_map_1.
    - apply elem_of_list_to_map_2. }
  assert (∀ k, k ∈ keys items ↔ is_Some (d !! k)) as Hin.
  { intros k. unfold keys. rewrite list_elem_of_fmap. split.
    - intros [[k' v] [-> Hkv]]. exists v. by apply Hent.
    - intros [v Hv]. exists (k, v). split; [done|]. by apply Hent. }
  assert (∀ k v, d !! k = Some v → well_shaped k v = true) as Hshape.
  { intros k v Hv. apply (entries_well_shaped items); [done|]. by apply Hent. }
  unfold task. rewrite Hsec. simpl. unfold Python.dict_getitem, get.
  setoid_rewrite Hent. setoid_rewrite Hin.
  clear Hent Hin Hl Hsec Hnd Hws Hds.
  assert (∀ v : section_value, ¬ is_Some (Some v) → False) as Habs.
  { intros v Hv. apply Hv. by exists v. }
  assert (¬ is_Some (@None section_value)) as Hnone by (by intros [? ?]).
  section_key d Hshape "name"; section_key d Hshape "command";
    section_key d Hshape "inputs"; section_key d Hshape "decls";
    section_key d Hshape "outputs"; section_key d Hshape "parameter_meta";
    section_key d Hshape "runtime"; section_key d Hshape "meta";
    simpl;
    (split; [intros Hn; first [done | by destruct (Habs _ Hn)]|]);
    (split; [intros Hn Hc;
             first [done | by destruct (Habs _ Hc) | by destruct (Hnone Hn)]|]);
    intros Hn Hc;
    try (by destruct (Hnone Hn)); try (by destruct (Hnone Hc));
    eexists; (split; [reflexivity|]); simpl;
    repeat split; intros;
    first [done | congruence
          | match goal with H : ¬ is_Some (Some _) |- _ =>
              by destruct (Habs _ H) end].
Qed.

End task_assembly.

Lemma C10_example :
  WDL._TaskTransformer.task [WDL.NameToken "t"] Examples.nowhere
  = Err (KeyError "command")
  ∧ ∃ tk, WDL._TaskTransformer.task [WDL.NameToken "t"; TaskExamples.echo]
            Examples.nowhere = Ok tk
          ∧ D.Task.inputs tk = [] ∧ D.Task.runtime tk = Py.Dict [].
Proof.
  split.
  - refine (proj1 (proj2 (C10_task_defaults [WDL.NameToken "t"]
                            Examples.nowhere _ _)) _ _).
    + apply (bool_decide_unpack _). vm_compute. exact I.
    + reflexivity.
    + apply (bool_decide_unpack _). vm_compute. exact I.
    + apply (bool_decide_unpack _). vm_compute. exact I.
  - destruct (proj2 (proj2 (C10_task_defaults
                [WDL.NameToken "t"; TaskExamples.echo] Examples.nowhere
                ltac:(apply (bool_decide_unpack _); vm_compute; exact I)
                eq_refl))
                ltac:(apply (bool_decide_unpack _); vm_compute; exact I)
                ltac:(apply (bool_decide_unpack _); vm_compute; exact I))
      as (tk & Htk & Hi & _ & _ & _ & Hr & _).
    exists tk. split; [exact Htk|]. split.
    + apply Hi. apply (bool_decide_unpack _). vm_compute. exact I.
    + apply Hr. apply (bool_decide_unpack _). vm_compute. exact I.
Defined.

(** C3 (what the code does).  A second fragment under a key already in the
    dictionary, a second name token, or a child that is neither, stops
    [task] at an [assert]: the exception is [AssertionError], which is not
    a [ValidationError] and carries no position.  So it is for two
    [runtime] sections in one task. *)
Theorem C3_duplicate_section_asserts :
  (∀ items meta,
     forallb dict_or_str items = false ∨ ¬ NoDup (keys items) →
     WDL._TaskTransformer.task items meta = Err AssertionError)
  ∧ WDL._TaskTransformer.task TaskExamples.two_runtimes Examples.nowhere
    = Err AssertionError
  ∧ is_ValidationError AssertionError = false.
Proof.
  split; [|split; [|reflexivity]].
  - intros items meta Hbad. unfold WDL._TaskTransformer.task.
    by rewrite sections_duplicate.
  - vm_compute. reflexivity.
Qed.

(** ** String and command literals *)

Section literals.
Import WDL.

Lemma substring_prefix (s m : string) :
  substring 0 (String.length s) (s +:+ m) = s.
Proof.
  induction s as [|c s IH]; simpl.
  - by destruct m.
  - by rewrite IH.
Qed.

Lemma length_append (s m : string) :
  String.length (s +:+ m) = String.length s + String.length m.
Proof. induction s as [|c s IH]; simpl; [done | by rewrite IH]. Qed.

(** [value[:-2]] takes a trailing two-character marker off. *)
Lemma slice_strips (value stored : string) :
  stripped value stored → Python.slice value 0 (-2) = stored.
Proof.
  intros (marker & Hm & ->). unfold Python.slice, Python.slice_bound.
  rewrite length_append, Hm. simpl.
  replace (Z.min 0 _) with 0%Z by lia.
  replace (Z.max 0 _) with (Z.of_nat (String.length stored)) by lia.
  rewrite Z.sub_0_r, Nat2Z.id. apply substring_prefix.
Qed.

Lemma literal_fragment t stored :
  Python.endswith (lark.type t) "_FRAGMENT" = true →
  stripped (lark.value t) stored →
  _ExprTransformer.literal t = stored.
Proof.
  intros Hty Hs. unfold _ExprTransformer.literal. rewrite Hty.
  by apply slice_strips.
Qed.

Lemma literal_text t :
  Python.endswith (lark.type t) "_FRAGMENT" = false →
  _ExprTransformer.literal t = lark.value t.
Proof. intros Hty. unfold _ExprTransformer.literal. by rewrite Hty. Qed.

Lemma token_stored in_command t :
  (Python.endswith (lark.type t) "_FRAGMENT" = true →
   ∃ stored, stripped (lark.value t) stored) →
  stored_part in_command (Tok t) (inl (_ExprTransformer.literal t)).
Proof.
  intros Hc. destruct (Python.endswith (lark.type t) "_FRAGMENT") eqn:Hty.
  - destruct Hc as [stored Hs]; [done|].
    rewrite (literal_fragment t stored Hty Hs). by constructor.
  - rewrite (literal_text t Hty). by constructor.
Qed.

Lemma string_parts items meta :
  _ExprTransformer.string items meta
  = E.String (sp meta)
      (map (λ item, match item with
                    | Node e => inr (E.Placeholder (E.pos e) ∅ e)
                    | Tok t => inl (_ExprTransformer.literal t)
                    end) items).
Proof.
  unfold _ExprTransformer.string. f_equal.
  assert (∀ acc : list (string + E.Base),
            foldl (λ parts item,
                     match item with
                     | Node e => parts ++ [inr (E.Placeholder (E.pos e) ∅ e)]
                     | Tok t => parts ++ [inl (_ExprTransformer.literal t)]
                     end) acc items
            = acc ++ map (λ item,
                            match item with
                            | Node e => inr (E.Placeholder (E.pos e) ∅ e)
                            | Tok t => inl (_ExprTransformer.literal t)
                            end) items) as Hfold.
  { induction items as [|item items IH]; intros acc; simpl.
    - by rewrite app_nil_r.
    - destruct item; rewrite IH; by rewrite <- app_assoc. }
  apply Hfold.
Qed.

Lemma command_parts items meta :
  (∀ e, Node e ∈ items → E.is_Placeholder e = true) →
  _TaskTransformer.command items meta
  = Ok (Fragment
          [("command",
            Command (E.String (sp meta)
              (map (λ item, match item with
                            | Node e => inr e
                            | Tok t => inl (_ExprTransformer.literal t)
                            end) items)))]).
Proof.
  intros Hph. unfold _TaskTransformer.command.
  set (step := λ item (parts : list (string + E.Base)), _).
  assert (∀ acc, for_each step items acc
                 = Ok (acc ++ map (λ item, match item with
                                            | Node e => inr e
                                            | Tok t => inl (_ExprTransformer.literal t)
                                            end) items)) as ->.
  { induction items as [|item items IH]; intros acc; simpl.
    - by rewrite app_nil_r.
    - assert (step item acc
              = Ok (acc ++ [match item with
                            | Node e => inr e
                            | Tok t => inl (_ExprTransformer.literal t)
                            end])) as ->.
      { destruct item as [t|e]; simpl; [done|].
        rewrite Hph; [done | by left]. }
      simpl. rewrite IH.
      + by rewrite <- app_assoc.
      + intros e He. apply Hph. by right. }
  reflexivity.
Qed.

Lemma command_needs_placeholders items meta e :
  Node e ∈ items → E.is_Placeholder e = false →
  _TaskTransformer.command items meta = Err AttributeError.
Proof.
  intros Hin He. unfold _TaskTransformer.command.
  set (step := λ item (parts : list (string + E.Base)), _).
  assert (∀ acc, for_each step items acc = Err AttributeError) as ->; [|done].
  induction items as [|item items IH]; intros acc;
    [by apply elem_of_nil in Hin|].
  simpl. destruct item as [t|e0]; simpl.
  - apply IH. by apply elem_of_cons in Hin as [[=]|?].
  - destruct (E.is_Placeholder e0) eqn:He0; simpl; [|done].
    apply IH. apply elem_of_cons in Hin as [[= <-]|?]; [congruence|done].
Qed.

(** C5.  Under the grammar's contract that the text of a fragment token
    ends with the two-character interpolation-open marker, the parts of
    the [String] built by [string], and by [command] when it succeeds
    (its expression children are placeholders), answer the items one for
    one: a fragment token gives its text without the marker, any other
    token gives its text, an expression gives a [Placeholder] node.
    Every expression part is a [Placeholder], and every text part comes
    from a token: no part is made for anything else. *)
Theorem C5_parts_are_clean (items : list text_item) (meta : lark.Meta) :
  fragments_end_with_marker items →
  (∃ parts,
     _ExprTransformer.string items meta = E.String (sp meta) parts
     ∧ Forall2 (stored_part false) items parts
     ∧ (∀ p, inr p ∈ parts → E.is_Placeholder p = true)
     ∧ (∀ s, inl s ∈ parts →
             ∃ t, Tok t ∈ items ∧ s = _ExprTransformer.literal t))
  ∧ ((∀ e, Node e ∈ items → E.is_Placeholder e = true) →
     ∃ parts,
       _TaskTransformer.command items meta
       = Ok (Fragment [("command", Command (E.String (sp meta) parts))])
       ∧ Forall2 (stored_part true) items parts
       ∧ (∀ p, inr p ∈ parts → E.is_Placeholder p = true)
       ∧ (∀ s, inl s ∈ parts →
               ∃ t, Tok t ∈ items ∧ s = _ExprTransformer.literal t)).
Proof.
  intros Hc. split.
  - eexists. split; [apply string_parts|]. split; [|split].
    + apply Forall2_fmap_r, Forall_Forall2_diag, Forall_forall.
      intros [t|e] Hin; [|by constructor].
      apply token_stored. by apply Hc.
    + intros p [[t|e] [Hp _]]%list_elem_of_fmap; [done|].
      by injection Hp as ->.
    + intros s [[t|e] [Hs Hin]]%list_elem_of_fmap; [|done].
      injection Hs as ->. by exists t.
  - intros Hph. eexists. split; [by apply command_parts|]. split; [|split].
    + apply Forall2_fmap_r, Forall_Forall2_diag, Forall_forall.
      intros [t|e] Hin.
      * apply token_stored. by apply Hc.
      * apply stored_placeholder; [done | by apply Hph].
    + intros p [[t|e] [Hp Hin]]%list_elem_of_fmap; [done|].
      injection Hp as ->. by apply Hph.
    + intros s [[t|e] [Hs Hin]]%list_elem_of_fmap; [|done].
      injection Hs as ->. by exists t.
Qed.

End literals.

Lemma C5_example :
  (∃ parts,
     WDL._ExprTransformer.string TextExamples.greeting Examples.nowhere
     = E.String (WDL.sp Examples.nowhere) parts
     ∧ Forall2 (stored_part false) TextExamples.greeting parts
     ∧ (∀ p, inr p ∈ parts → E.is_Placeholder p = true)
     ∧ (∀ s, inl s ∈ parts →
             ∃ t, WDL.Tok t ∈ TextExamples.greeting
                  ∧ s = WDL._ExprTransformer.literal t))
  ∧ WDL._ExprTransformer.string TextExamples.greeting Examples.nowhere
    = E.String (WDL.sp Examples.nowhere)
        [ inl "a";
          inr (E.Placeholder Examples.here ∅ (E.Ident Examples.here ["x"]));
          inl "b" ].
Proof.
  split; [|reflexivity].
  apply (C5_parts_are_clean TextExamples.greeting Examples.nowhere).
  intros t Hin Hty. exists "a". exists "${". split; [reflexivity|].
  apply list_elem_of_In in Hin. simpl in Hin.
  destruct Hin as [Heq|[Heq|[Heq|[]]]]; try discriminate Heq.
  - injection Heq as <-. reflexivity.
  - injection Heq as <-. vm_compute in Hty. discriminate Hty.
Defined.

(** ** Meta sections *)

Section meta_sections.
Import WDL WDL._TaskTransformer.
Context `{G : E.Globals} `{Ev : Evaluator}.

Lemma meta_tree_induction (P : meta_tree → Prop) :
  (∀ e, P (meta_literal_node e)) →
  (∀ children, Forall P children → P (meta_array_node children)) →
  (∀ children, Forall (λ kc, P kc.2) children →
               P (meta_object_node children)) →
  ∀ t, P t.
Proof.
  intros Hlit Harr Hobj. fix IH 1. intros [e|children|children].
  - apply Hlit.
  - apply Harr. induction children as [|c cs IHcs]; constructor;
      [apply IH | apply IHcs].
  - apply Hobj. induction children as [|[k c] cs IHcs]; constructor;
      [apply IH | apply IHcs].
Qed.

Lemma value_expr_free (v : Value.Base) : expr_free (Py.value v) = true.
Proof.
  destruct v as [| | | | |ty vs]; try reflexivity.
  simpl. induction vs as [|v vs IH]; [done | by simpl].
Qed.

Lemma meta_literal_evaluates e v :
  meta_literal e = Ok v →
  ∃ val, eval e = Ok val ∧ v = Py.value val ∧ expr_free v = true.
Proof.
  unfold meta_literal.
  destruct (E.infer_type e E.TypeEnv_empty) as [ty|]; simpl; [|done].
  destruct (eval e) as [val|]; simpl; [|done].
  intros [= <-]. exists val. by rewrite value_expr_free.
Qed.

Lemma meta_object_items items v :
  meta_object items = Ok v → v = Py.Dict items.
Proof.
  unfold meta_object.
  assert (∀ acc d, for_each store_meta items acc = Ok d → d = acc ++ items)
    as Hd.
  { induction items as [|[k w] items IH]; intros acc d; simpl.
    - intros [= <-]. by rewrite app_nil_r.
    - destruct (assert _); simpl; [|done].
      intros ->%IH. by rewrite <- app_assoc. }
  destruct (for_each store_meta items []) as [d|] eqn:Hfe; simpl; [|done].
  intros [= <-]. by rewrite (Hd _ _ Hfe).
Qed.

Lemma transform_meta_expr_free t v :
  transform_meta t = Ok v → expr_free v = true.
Proof.
  revert v. induction t as [e|children IH|children IH]
    using meta_tree_induction; intros v; simpl.
  - by intros (val & _ & _ & Hv)%meta_literal_evaluates.
  - set (each := fix each (ts : list meta_tree) : result (list Py.t) := _).
    assert (∀ items, each children = Ok items →
                     forallb expr_free items = true) as Hall.
    { induction IH as [|c cs Hc _ IHcs]; intros items; simpl.
      - by intros [= <-].
      - destruct (transform_meta c) as [w|] eqn:Hw; simpl; [|done].
        destruct (each cs) as [ws|]; simpl; [|done].
        intros [= <-]. simpl.
        first [rewrite (Hc _ Hw) | rewrite (Hc _ eq_refl)].
        by rewrite (IHcs _ eq_refl). }
    destruct (each children) as [items|]; simpl; [|done].
    intros [= <-]. by apply Hall.
  - set (each := fix each (ts : list (lark.Token * meta_tree))
                   : result (list (string * Py.t)) := _).
    assert (∀ items, each children = Ok items →
              forallb (λ kv, match kv with (_, w) => expr_free w end) items
              = true) as Hall.
    { induction IH as [|[k c] cs Hc _ IHcs]; intros items; simpl.
      - by intros [= <-].
      - simpl in Hc.
        destruct (transform_meta c) as [w|] eqn:Hw; simpl; [|done].
        destruct (each cs) as [ws|]; simpl; [|done].
        intros [= <-]. simpl.
        first [rewrite (Hc _ Hw) | rewrite (Hc _ eq_refl)].
        by rewrite (IHcs _ eq_refl). }
    destruct (each children) as [items|]; simpl; [|done].
    intros ->%meta_object_items. by apply Hall.
Qed.

Lemma sections_lookup items (d : gmap string section_value) k v :
  sections items = Ok d → d !! k = Some v → (k, v) ∈ entries items.
Proof.
  intros Hd Hk. pose proof Hd as Hd'. rewrite sections_unfold in Hd'.
  pose proof (merge_inv _ _ _ Hd') as Hall.
  rewrite merge_flat in Hd' by done. apply stores_inv in Hd' as [Hnd _].
  destruct (sections_ok items Hall Hnd) as (d' & Hd'' & Hl).
  assert (d' = d) as -> by congruence.
  rewrite Hl in Hk. by apply elem_of_list_to_map_2 in Hk.
Qed.

Lemma transform_child_mappings c item k m :
  transform_child c = Ok item →
  (k, Mapping m) ∈ entries [item] → expr_free m = true.
Proof.
  unfold entries. simpl. rewrite app_nil_r.
  destruct c as [t|ds|ds|ds|its mt|kind object]; simpl.
  - intros [= <-] Hin. apply list_elem_of_singleton in Hin. discriminate Hin.
  - intros [= <-] Hin. apply list_elem_of_singleton in Hin. discriminate Hin.
  - intros [= <-] Hin. apply list_elem_of_singleton in Hin. discriminate Hin.
  - intros [= <-] Hin. apply list_elem_of_singleton in Hin. discriminate Hin.
  - unfold command. destruct (for_each _ its []); simpl; [|done].
    intros [= <-] Hin. apply list_elem_of_singleton in Hin. discriminate Hin.
  - destruct (transform_meta object) as [v|] eqn:Hv; simpl; [|done].
    intros [= <-] Hin. apply list_elem_of_singleton in Hin.
    injection Hin as _ ->. by eapply transform_meta_expr_free.
Qed.

Lemma transform_children_mappings cs items k m :
  transform_children cs = Ok items →
  (k, Mapping m) ∈ entries items → expr_free m = true.
Proof.
  revert items. induction cs as [|c cs IH]; intros items; simpl.
  - intros [= <-] Hin. by apply elem_of_nil in Hin.
  - destruct (transform_child c) as [item|] eqn:Hc; simpl; [|done].
    destruct (transform_children cs) as [rest|]; simpl; [|done].
    intros [= <-].
    replace (entries (item :: rest)) with (entries [item] ++ entries rest)
      by (unfold entries; simpl; by rewrite app_nil_r).
    { intros [Hin|Hin]%elem_of_app.
      - by eapply transform_child_mappings.
      - by eapply IH. }
Qed.

Lemma mapping_expr_free (d : gmap string section_value) k m :
  (∀ k' m', d !! k' = Some (Mapping m') → expr_free m' = true) →
  as_mapping (get d k (Mapping (Py.Dict []))) = Ok m →
  expr_free m = true.
Proof.
  intros Hd. unfold get. destruct (d !! k) as [v|] eqn:Hk; simpl.
  - destruct v; simpl; try done. intros [= <-]. by eapply Hd.
  - by intros [= <-].
Qed.

(** C6.  A literal of a meta, parameter_meta or runtime section is
    evaluated when its node is transformed: [meta_literal] type-checks it
    in the empty environment, evaluates it in the empty environment and
    returns the payload of the value.  So the value of every meta tree,
    and with it each of the three mappings of a task that the transformer
    builds, holds no expression node. *)
Theorem C6_meta_sections_hold_values
    (children : list task_child) (meta : lark.Meta) (tk : D.Task.t) :
  transform_task children meta = Ok tk →
  expr_free (D.Task.parameter_meta tk) = true
  ∧ expr_free (D.Task.runtime tk) = true
  ∧ expr_free (D.Task.meta tk) = true
  ∧ (∀ e v, meta_literal e = Ok v →
            ∃ val, eval e = Ok val ∧ v = Py.value val ∧ expr_free v = true)
  ∧ (∀ t v, transform_meta t = Ok v → expr_free v = true).
Proof.
  intros Htk.
  split; [|split; [|split; [|split]]];
    [| | | apply meta_literal_evaluates | apply transform_meta_expr_free].
  all: unfold transform_task in Htk;
    destruct (transform_children children) as [items|] eqn:Hcs;
      simpl in Htk; [|done];
    unfold task in Htk;
    destruct (sections items) as [d|] eqn:Hd; simpl in Htk; [|done];
    assert (∀ k' m', d !! k' = Some (Mapping m') → expr_free m' = true)
      as Hfree
      by (intros k' m' Hk'; eapply transform_children_mappings; [done|];
          by eapply sections_lookup);
    repeat match type of Htk with
           | (?x ≫= _) = _ =>
               let H := fresh "Hx" in
               destruct x eqn:H; simpl in Htk; [|done]
           end;
    injection Htk as <-; simpl; by eapply mapping_expr_free.
Qed.

End meta_sections.

Lemma C6_example :
  ∃ tk,
    WDL._TaskTransformer.transform_task (G := Examples.strict)
      (Ev := Examples.literals) MetaExamples.with_meta Examples.nowhere = Ok tk
    ∧ D.Task.meta tk
      = Py.Dict [("cores", Py.Int 2); ("tags", Py.List [Py.Bool true])]
    ∧ expr_free (D.Task.meta tk) = true.
Proof.
  eexists. split; [vm_compute; reflexivity|]. split; [reflexivity|].
  refine (proj1 (proj2 (proj2 (C6_meta_sections_hold_values
    (G := Examples.strict) (Ev := Examples.literals)
    MetaExamples.with_meta Examples.nowhere _ _)))).
  vm_compute. reflexivity.
Defined.

(** ** Type-checking a task *)

Section task_typecheck.
Context `{G : E.Globals}.

Lemma bindings_cons d ds env :
  bindings (d :: ds) env
  = bindings ds (E.TypeEnv_bind (D.Decl.name d, D.Decl.type d) env).
Proof. reflexivity. Qed.

Lemma bindings_app ds1 ds2 env :
  bindings (ds1 ++ ds2) env = bindings ds2 (bindings ds1 env).
Proof. unfold bindings. apply foldl_app. Qed.

Lemma lookup_bindings_fresh ds env x :
  x ∉ D.Decl.name <$> ds →
  E.TypeEnv_lookup (bindings ds env) x = E.TypeEnv_lookup env x.
Proof.
  revert env. induction ds as [|d ds IH]; intros env Hx; [done|].
  rewrite fmap_cons in Hx. apply not_elem_of_cons in Hx as [Hne Hx].
  rewrite bindings_cons, IH by done. simpl.
  by rewrite bool_decide_eq_false_2 by done.
Qed.

Lemma lookup_bindings_last pre d post env :
  D.Decl.name d ∉ D.Decl.name <$> post →
  E.TypeEnv_lookup (bindings (pre ++ d :: post) env) (D.Decl.name d)
  = Some (D.Decl.type d).
Proof.
  intros Hx. rewrite bindings_app, bindings_cons.
  rewrite lookup_bindings_fresh by done. simpl.
  by rewrite bool_decide_eq_true_2.
Qed.

Lemma decl_step_ok d env env' :
  D._typecheck_decl d env = Ok env' ↔
  env' = E.TypeEnv_bind (D.Decl.name d, D.Decl.type d) env
  ∧ ∀ e, D.Decl.expr d = Some e → E.typecheck e env (D.Decl.type d) = Ok tt.
Proof.
  unfold D._typecheck_decl. destruct (D.Decl.expr d) as [e|]; simpl.
  - destruct (E.typecheck e env (D.Decl.type d)) as [[]|x] eqn:Ht; simpl.
    + split.
      * intros [= <-]. split; [done|]. by intros ? [= <-].
      * by intros [-> _].
    + split; [done|]. intros [_ He]. specialize (He e eq_refl). congruence.
  - split.
    + intros [= <-]. by split.
    + by intros [-> _].
Qed.

Lemma decl_step_err d env e x :
  D.Decl.expr d = Some e →
  E.typecheck e env (D.Decl.type d) = Err x →
  D._typecheck_decl d env = Err x.
Proof. intros He Hx. unfold D._typecheck_decl. by rewrite He, Hx. Qed.

(** The loop over declarations succeeds exactly when each expression
    checks in the environment of the declarations before it, and then it
    has bound every declaration. *)
Lemma decls_ok ds env env' :
  for_each D._typecheck_decl ds env = Ok env' ↔
  checked_in_order ds env ∧ env' = bindings ds env.
Proof.
  revert env. induction ds as [|d ds IH]; intros env.
  - simpl. split.
    + intros [= <-]. split; [|done]. intros [|??] ???; discriminate.
    + by intros [_ ->].
  - simpl. split.
    + destruct (D._typecheck_decl d env) as [env1|] eqn:Hd; simpl; [|done].
      apply decl_step_ok in Hd as [-> Hd].
      intros [Hds ->]%IH. split; [|done].
      intros [|d0 pre] d' post e Heq He; simpl in Heq.
      * injection Heq as <- <-. by apply Hd.
      * injection Heq as <- ->. rewrite bindings_cons. by eapply Hds.
    + intros [Hds ->].
      assert (D._typecheck_decl d env
              = Ok (E.TypeEnv_bind (D.Decl.name d, D.Decl.type d) env)) as ->.
      { apply decl_step_ok. split; [done|]. intros e He.
        by apply (Hds [] d ds e). }
      simpl. apply IH. split; [|done].
      intros pre d' post e -> He.
      rewrite <- bindings_cons. by apply (Hds (d :: pre) d' post e).
Qed.

(** The loop stops at the first declaration whose expression fails, with
    the error of that expression, whatever comes after it. *)
Lemma decls_first_error pre d post env e x :
  checked_in_order pre env →
  D.Decl.expr d = Some e →
  E.typecheck e (bindings pre env) (D.Decl.type d) = Err x →
  for_each D._typecheck_decl (pre ++ d :: post) env = Err x.
Proof.
  intros Hpre He Hx. rewrite for_each_app.
  assert (for_each D._typecheck_decl pre env = Ok (bindings pre env)) as ->
    by by apply decls_ok.
  simpl. by rewrite (decl_step_err _ _ _ _ He Hx).
Qed.

Lemma ident_unbound p x env ty :
  E.TypeEnv_lookup env x = None →
  E.typecheck (E.Ident p [x]) env ty
  = Err (ValidationError (UnknownIdentifier [x]) p None).
Proof. intros Hx. unfold E.typecheck. simpl. by rewrite Hx. Qed.

Lemma ident_bound p x env ty ty0 :
  E.TypeEnv_lookup env x = Some ty0 →
  T.coerces (T.resolve ty0 ty) ty E.check_quant = true →
  E.typecheck (E.Ident p [x]) env ty = Ok tt.
Proof.
  intros Hx Hc. unfold E.typecheck.
  change (E.infer_type (E.Ident p [x]) env)
    with (match E.TypeEnv_lookup env x with
          | Some ty => Ok ty
          | None => Err (ValidationError (UnknownIdentifier [x]) p None)
          end).
  rewrite Hx. change (Ok ty0 ≫= ?f) with (f ty0). cbv beta. by rewrite Hc.
Qed.

Lemma lookup_bindings_bound ds env x :
  x ∈ D.Decl.name <$> ds ∨ is_Some (E.TypeEnv_lookup env x) →
  is_Some (E.TypeEnv_lookup (bindings ds env) x).
Proof.
  revert env. induction ds as [|d ds IH]; intros env.
  - intros [Hx|Hx]; [by apply elem_of_nil in Hx | done].
  - intros Hx. rewrite bindings_cons. apply IH.
    rewrite fmap_cons in Hx. simpl.
    destruct (decide (D.Decl.name d = x)) as [Heq|Hne].
    + right. by rewrite bool_decide_eq_true_2.
    + rewrite bool_decide_eq_false_2 by done.
      destruct Hx as [[?|?]%elem_of_cons|?]; [congruence | by left | by right].
Qed.

Lemma task_typecheck_unfold tk type_env :
  D.Task.typecheck tk type_env
  = for_each D._typecheck_decl (D.Task.inputs tk ++ D.Task.postinputs tk)
      (default E.TypeEnv_empty type_env)
    ≫= λ env, E.typecheck (D.Task.command tk) env (T.String false)
    ≫= λ _, for_each D._typecheck_decl (D.Task.outputs tk) env.
Proof. reflexivity. Qed.

(** C1.  [Task.typecheck] folds over [inputs + postinputs] from left to
    right, starting from the given environment or the empty one.  It
    succeeds exactly when the expression of each declaration checks
    against the declared type in the environment of the declarations
    before it, the command checks against [String] in the environment of
    all of them, and the outputs check in the same way after them.  Each
    declaration is bound whether or not it has an expression.  So a
    declaration that names an identifier bound neither before the loop nor
    by an earlier declaration fails with [UnknownIdentifier], even when a
    later declaration declares it, and one that names an earlier
    declaration of a type that coerces to its own passes; such are
    [a: Int, b: Int = a+1] and its reordering. *)
Theorem C1_typecheck_folds_left_to_right
    (tk : D.Task.t) (type_env : option E.TypeEnv) :
  (∀ env',
     D.Task.typecheck tk type_env = Ok env' ↔
     checked_in_order (D.Task.inputs tk ++ D.Task.postinputs tk)
       (default E.TypeEnv_empty type_env)
     ∧ E.typecheck (D.Task.command tk)
         (bindings (D.Task.inputs tk ++ D.Task.postinputs tk)
            (default E.TypeEnv_empty type_env))
         (T.String false) = Ok tt
     ∧ checked_in_order (D.Task.outputs tk)
         (bindings (D.Task.inputs tk ++ D.Task.postinputs tk)
            (default E.TypeEnv_empty type_env))
     ∧ env' = bindings (D.Task.outputs tk)
                (bindings (D.Task.inputs tk ++ D.Task.postinputs tk)
                   (default E.TypeEnv_empty type_env)))
  ∧ (∀ d, d ∈ D.Task.inputs tk ++ D.Task.postinputs tk →
          is_Some (E.TypeEnv_lookup
                     (bindings (D.Task.inputs tk ++ D.Task.postinputs tk)
                        (default E.TypeEnv_empty type_env))
                     (D.Decl.name d)))
  ∧ (∀ pre d post p x,
       D.Task.inputs tk ++ D.Task.postinputs tk = pre ++ d :: post →
       D.Decl.expr d = Some (E.Ident p [x]) →
       checked_in_order pre (default E.TypeEnv_empty type_env) →
       x ∉ D.Decl.name <$> pre →
       E.TypeEnv_lookup (default E.TypeEnv_empty type_env) x = None →
       D.Task.typecheck tk type_env
       = Err (ValidationError (UnknownIdentifier [x]) p None))
  ∧ (∀ pre1 d0 pre2 d p,
       D.Decl.expr d = Some (E.Ident p [D.Decl.name d0]) →
       D.Decl.name d0 ∉ D.Decl.name <$> pre2 →
       T.coerces (T.resolve (D.Decl.type d0) (D.Decl.type d))
         (D.Decl.type d) E.check_quant = true →
       E.typecheck (E.Ident p [D.Decl.name d0])
         (bindings (pre1 ++ d0 :: pre2) (default E.TypeEnv_empty type_env))
         (D.Decl.type d) = Ok tt)
  ∧ (∀ fn,
       E.stdlib "_add" = Some fn → E.arity fn = 2 →
       (∀ p, E.infer_result fn p [T.Int false; T.Int false]
             = Ok (T.Int false)) →
       D.Task.typecheck
         (OrderExamples.task_with [OrderExamples.a; OrderExamples.b]) None
       = Ok [("b", T.Int false); ("a", T.Int false)]
       ∧ E.infer_type
           (E.Apply Examples.here "_add"
              [E.Ident Examples.here ["a"]; E.Int Examples.here 1])
           [("a", T.Int false)] = Ok (T.Int false)
       ∧ D.Task.typecheck
           (OrderExamples.task_with [OrderExamples.b; OrderExamples.a]) None
         = Err (ValidationError (UnknownIdentifier ["a"]) Examples.here None)).
Proof.
  split; [|split; [|split; [|split]]].
  - intros env'. rewrite task_typecheck_unfold.
    destruct (for_each D._typecheck_decl _ (default _ type_env))
      as [env1|x] eqn:Hin; simpl.
    + apply decls_ok in Hin as [Hin ->].
      destruct (E.typecheck (D.Task.command tk) _ _) as [[]|x] eqn:Hc; simpl.
      * rewrite decls_ok. split.
        -- by intros [Hout ->].
        -- by intros (_ & _ & Hout & ->).
      * split; [done|]. intros (_ & [=] & _).
    + split; [done|]. intros (Hds & _).
      assert (for_each D._typecheck_decl
                (D.Task.inputs tk ++ D.Task.postinputs tk)
                (default E.TypeEnv_empty type_env)
              = Ok (bindings (D.Task.inputs tk ++ D.Task.postinputs tk)
                      (default E.TypeEnv_empty type_env)))
        by by apply decls_ok.
      congruence.
  - intros d Hd. apply lookup_bindings_bound. left.
    by apply list_elem_of_fmap_2.
  - intros pre d post p x Hds He Hpre Hx Henv.
    rewrite task_typecheck_unfold, Hds.
    rewrite (decls_first_error pre d post _ (E.Ident p [x])
               (ValidationError (UnknownIdentifier [x]) p None));
      [done..|].
    apply ident_unbound. by rewrite lookup_bindings_fresh.
  - intros pre1 d0 pre2 d p He Hx Hc.
    eapply ident_bound; [|done]. by apply lookup_bindings_last.
  - intros fn Hfn Har Hres.
    assert (E.infer_type
              (E.Apply Examples.here "_add"
                 [E.Ident Examples.here ["a"]; E.Int Examples.here 1])
              [("a", T.Int false)] = Ok (T.Int false)) as Hb.
    { simpl. rewrite Hfn, Har. simpl. apply Hres. }
    split; [|split; [done|]].
    + assert (D._typecheck_decl OrderExamples.b [("a", T.Int false)]
              = Ok [("b", T.Int false); ("a", T.Int false)]) as Hstep.
      { apply decl_step_ok. split; [done|]. intros e [= <-].
        unfold E.typecheck. by rewrite Hb. }
      rewrite task_typecheck_unfold. simpl.
      change (E.TypeEnv_bind ("a", T.Int false) E.TypeEnv_empty)
        with [("a", T.Int false)].
      by rewrite Hstep.
    + assert (D._typecheck_decl OrderExamples.b E.TypeEnv_empty
              = Err (ValidationError (UnknownIdentifier ["a"])
                       Examples.here None)) as Hstep.
      { eapply decl_step_err; [reflexivity|].
        unfold E.typecheck. simpl. by rewrite Hfn, Har. }
      rewrite task_typecheck_unfold. simpl. by rewrite Hstep.
Qed.

End task_typecheck.

Lemma C1_example :
  D.Task.typecheck (G := Examples.strict)
    (OrderExamples.task_with [OrderExamples.a; OrderExamples.b]) None
  = Ok [("b", T.Int false); ("a", T.Int false)]
  ∧ D.Task.typecheck (G := Examples.strict)
      (OrderExamples.task_with [OrderExamples.b; OrderExamples.a]) None
    = Err (ValidationError (UnknownIdentifier ["a"]) Examples.here None).
Proof.
  destruct (proj2 (proj2 (proj2 (proj2
              (C1_typecheck_folds_left_to_right (G := Examples.strict)
                 (OrderExamples.task_with []) None))))
              Examples.add_function eq_refl eq_refl (λ _, eq_refl))
    as (Hok & _ & Herr).
  split; [exact Hok | exact Herr].
Defined.

(** ** The source excerpt of an error *)

Section excerpt.

Lemma length_list_ascii (s : string) :
  length (list_ascii_of_string s) = String.length s.
Proof. induction s as [|c s IH]; simpl; [done | by rewrite IH]. Qed.

Lemma str_getitem_in_range (s : string) (i : Z) :
  (0 ≤ i < Z.of_nat (String.length s))%Z →
  ∃ c, Python.str_getitem s i = Ok c.
Proof.
  intros [Hlo Hhi]. unfold Python.str_getitem, Python.getitem.
  rewrite length_list_ascii.
  destruct (i <? 0)%Z eqn:Hneg; [lia|]. rewrite Hneg.
  destruct (list_ascii_of_string s !! Z.to_nat i) as [c|] eqn:Hc; [by exists c|].
  apply lookup_ge_None in Hc. rewrite length_list_ascii in Hc. lia.
Qed.

(** The loop moves [end_column] left over blanks, at most [steps]
    columns, and stops before a character that is not a blank. *)
Lemma trim_loop_spec (error_line : string) (steps : nat) (end_column : Z) :
  (0 < steps → (0 ≤ end_column - Z.of_nat steps - 1)%Z) →
  (end_column ≤ Z.of_nat (String.length error_line) + 1)%Z →
  ∃ e, CLI.trim_loop error_line steps end_column = Ok e
       ∧ (end_column - Z.of_nat steps ≤ e ≤ end_column)%Z
       ∧ (∀ j, (e ≤ j < end_column)%Z → blank_at error_line j)
       ∧ (e = (end_column - Z.of_nat steps)%Z
          ∨ ∃ c, Python.str_getitem error_line (e - 2) = Ok c
                 ∧ c ≠ Python.space).
Proof.
  revert end_column. induction steps as [|steps IH]; intros ec Hlo Hhi.
  - exists ec. simpl. split; [done|]. split; [lia|]. split; [|left; lia].
    intros j Hj. lia.
  - specialize (Hlo ltac:(lia)).
    destruct (str_getitem_in_range error_line (ec - 2)) as [c Hc]; [lia|].
    simpl. rewrite Hc. simpl.
    destruct (decide (c = Python.space)) as [->|Hne].
    + rewrite bool_decide_eq_true_2 by done.
      destruct (IH (ec - 1)%Z) as (e & He & Hr & Hb & Hs); [lia..|].
      exists e. split; [done|]. split; [lia|]. split.
      * intros j Hj. destruct (decide (j = ec - 1)%Z) as [->|Hj'].
        -- unfold blank_at. by replace (ec - 1 - 1)%Z with (ec - 2)%Z by lia.
        -- apply Hb. lia.
      * destruct Hs as [->|Hs]; [left; lia | by right].
    + rewrite bool_decide_eq_false_2 by done.
      exists ec. split; [done|]. split; [lia|]. split.
      * intros j Hj. lia.
      * right. by exists c.
Qed.

Lemma trim_spec (error_line : string) (column end_column : Z) :
  (1 ≤ column)%Z →
  (end_column ≤ Z.of_nat (String.length error_line) + 1)%Z →
  ∃ e, CLI.trim error_line column end_column = Ok e
       ∧ (e ≤ end_column)%Z
       ∧ (∀ j, (e ≤ j < end_column)%Z → blank_at error_line j)
       ∧ ((end_column ≤ column + 1)%Z → e = end_column)
       ∧ ((column + 1 < end_column)%Z →
          (column + 1 ≤ e)%Z
          ∧ (e = (column + 1)%Z ∨ ¬ blank_at error_line (e - 1))).
Proof.
  intros Hcol Hhi. unfold CLI.trim.
  destruct (trim_loop_spec error_line
              (Z.to_nat (end_column - (column + 1))) end_column)
    as (e & He & Hr & Hb & Hs); [lia | done |].
  exists e. split; [done|]. split; [lia|]. split; [done|]. split.
  - intros Hle. lia.
  - intros Hlt. split; [lia|]. destruct Hs as [->|(c & Hc & Hne)].
    + left. lia.
    + right. unfold blank_at.
      replace (e - 1 - 1)%Z with (e - 2)%Z by lia. congruence.
Qed.

Lemma show_excerpt_spec kind pos source_text st error_line :
  reported_line pos source_text = Ok error_line →
  (1 ≤ column pos)%Z →
  (span_end pos error_line ≤ Z.of_nat (String.length error_line) + 1)%Z →
  ∃ e, CLI.trim error_line (column pos) (span_end pos error_line) = Ok e
    ∧ CLI.show_excerpt kind pos source_text st
      = Ok {| CLI.stderr :=
                CLI.stderr st ++ ["    " +:+ error_line;
                                  underline (column pos) e];
              CLI.quant_warning :=
                CLI.quant_warning st || relaxed_accepts kind |}.
Proof.
  unfold reported_line. intros Hline Hcol Hend.
  destruct (Python.getitem _ _) as [raw|] eqn:Hraw; simpl in Hline; [|done].
  injection Hline as <-.
  destruct (trim_spec _ _ _ Hcol Hend) as (e & He & _).
  exists e. split; [done|].
  unfold CLI.show_excerpt. rewrite Hraw. simpl.
  unfold span_end in He. rewrite He. simpl.
  unfold CLI.print, CLI.set_quant_warning, underline. simpl.
  rewrite <- app_assoc. simpl.
  destruct kind as [| | | |expected actual|]; simpl;
    try (by rewrite orb_false_r; destruct st).
  destruct (T.coerces actual expected false); simpl.
  - by rewrite orb_true_r.
  - by rewrite orb_false_r.
Qed.

End excerpt.

Section print_error.
Context `{M : CLI.Messages}.

Lemma print_error_validation kind pos source_text st :
  CLI.print_error (ValidationError kind pos (Some source_text)) st
  = if bool_decide (source_text ≠ EmptyString)
    then CLI.show_excerpt kind pos source_text
           (CLI.print (CLI.headline (ValidationError kind pos
                                       (Some source_text))) st)
    else Ok (CLI.print (CLI.headline (ValidationError kind pos
                                        (Some source_text))) st).
Proof. reflexivity. Qed.

(** C8 (amended).  For a [ValidationError] with a source text, whose
    reported line exists and whose span lies on it, the printer writes
    the headline, the line, and an underline of carets from [column] up
    to a column [e]: [e] is the end of the span on that line
    ([end_column], or one past the end of the line for a span of several
    lines) moved left over the blanks that end the span, though not
    beyond [column + 1].  When the span does not end in a blank, [e] is
    that end itself. *)
Theorem C8_underline_is_trimmed
    (kind : validation_kind) (pos : SourcePosition) (source_text : string)
    (st : CLI.state) (error_line : string) :
  source_text ≠ EmptyString →
  reported_line pos source_text = Ok error_line →
  (1 ≤ column pos)%Z →
  (span_end pos error_line ≤ Z.of_nat (String.length error_line) + 1)%Z →
  ∃ (e : Z) (st' : CLI.state),
    CLI.print_error (ValidationError kind pos (Some source_text)) st = Ok st'
    ∧ CLI.stderr st'
      = CLI.stderr st
        ++ [ CLI.headline (ValidationError kind pos (Some source_text));
             "    " +:+ error_line;
             underline (column pos) e ]
    ∧ (e ≤ span_end pos error_line)%Z
    ∧ (∀ j, (e ≤ j < span_end pos error_line)%Z → blank_at error_line j)
    ∧ ((span_end pos error_line ≤ column pos + 1)%Z →
       e = span_end pos error_line)
    ∧ ((column pos + 1 < span_end pos error_line)%Z →
       (column pos + 1 ≤ e)%Z
       ∧ (e = (column pos + 1)%Z ∨ ¬ blank_at error_line (e - 1)))
    ∧ (¬ blank_at error_line (span_end pos error_line - 1) →
       e = span_end pos error_line).
Proof.
  intros Htext Hline Hcol Hend.
  destruct (trim_spec error_line (column pos) (span_end pos error_line)
              Hcol Hend) as (e & He & Hle & Hblank & Hshort & Hlong).
  destruct (show_excerpt_spec kind pos source_text
              (CLI.print (CLI.headline (ValidationError kind pos
                                          (Some source_text))) st)
              error_line Hline Hcol Hend) as (e' & He' & Hshow).
  assert (e' = e) as -> by congruence.
  eexists e, _. split.
  { rewrite print_error_validation, bool_decide_eq_true_2 by done.
    exact Hshow. }
  split; [simpl; by rewrite <- app_assoc|].
  repeat (split; [done|]).
  intros Hnb. destruct (decide (e = span_end pos error_line)) as [|Hne];
    [done|].
  destruct Hnb. apply Hblank. lia.
Qed.

End print_error.

Lemma C8_example :
  ∃ (e : Z) (st' : CLI.state),
    CLI.print_error (M := Examples.class_names)
      (ValidationError OtherValidation DiagnosticExamples.both_lines
         (Some DiagnosticExamples.two_lines)) CLI.initial = Ok st'
    ∧ CLI.stderr st'
      = [ "(t.wdl Ln 1 Col 1) ValidationError"; "    if x  ";
          underline 1 e ]
    ∧ (e ≤ 7)%Z.
Proof.
  destruct (C8_underline_is_trimmed (M := Examples.class_names)
              OtherValidation DiagnosticExamples.both_lines
              DiagnosticExamples.two_lines CLI.initial "if x  ")
    as (e & st' & Hp & Hs & Hle & _).
  - discriminate.
  - reflexivity.
  - vm_compute. discriminate.
  - vm_compute. discriminate.
  - exists e, st'. split; [exact Hp|]. split; [exact Hs | exact Hle].
Defined.

(** C8 as stated fails: for a span of two lines whose first line ends in
    two blanks, the underline printed stops before the blanks and is not
    the one that reaches the end of the line. *)
Lemma C8_counterexample :
  ∃ st',
    CLI.print_error (M := Examples.class_names)
      (ValidationError OtherValidation DiagnosticExamples.both_lines
         (Some DiagnosticExamples.two_lines)) CLI.initial = Ok st'
    ∧ reported_line DiagnosticExamples.both_lines DiagnosticExamples.two_lines
      = Ok "if x  "
    ∧ last (CLI.stderr st') = Some "    ^^^^"
    ∧ claimed_underline DiagnosticExamples.both_lines "if x  " = "    ^^^^^^"
    ∧ last (CLI.stderr st')
      ≠ Some (claimed_underline DiagnosticExamples.both_lines "if x  ").
Proof.
  eexists. split; [vm_compute; reflexivity|].
  split; [reflexivity|]. split; [reflexivity|]. split; [reflexivity|].
  vm_compute. discriminate.
Qed.

(** ** The hint on relaxed quantifier checking *)

Section quant_hint.
Context `{M : CLI.Messages}.

Lemma exn_induction (P : exn → Prop) :
  P AssertionError → (∀ k, P (KeyError k)) → P IndexError →
  P AttributeError → P TypeError → (∀ m s, P (SystemExit m s)) →
  (∀ p, P (SyntaxError p)) →
  (∀ p, P (ImportError p None)) →
  (∀ p c, P c → P (ImportError p (Some c))) →
  (∀ k p t, P (ValidationError k p t)) →
  (∀ es, Forall P es → P (MultipleValidationErrors es)) →
  ∀ e, P e.
Proof.
  intros H1 H2 H3 H4 H5 H6 H7 H8 H9 H10 H11. fix IH 1.
  intros [|k| | | |m s|p|p [c|]|k p t|es].
  - exact H1.
  - apply H2.
  - exact H3.
  - exact H4.
  - exact H5.
  - apply H6.
  - apply H7.
  - apply H9, IH.
  - apply H8.
  - apply H10.
  - apply H11. induction es as [|e es IHes]; constructor;
      [apply IH | apply IHes].
Qed.

Lemma show_excerpt_quant kind pos source_text st st' :
  CLI.show_excerpt kind pos source_text st = Ok st' →
  CLI.quant_warning st'
  = CLI.quant_warning st || relaxed_accepts kind.
Proof.
  unfold CLI.show_excerpt.
  destruct (Python.getitem _ _) as [raw|]; simpl; [|done].
  destruct (CLI.trim _ _ _) as [e|]; simpl; [|done].
  destruct kind as [| | | |expected actual|]; simpl;
    try (intros [= <-]; simpl; by rewrite orb_false_r).
  destruct (T.coerces actual expected false); intros [= <-]; simpl.
  - by rewrite orb_true_r.
  - by rewrite orb_false_r.
Qed.

(** [print_error] sets [quant_warning] exactly for a mismatch that it
    shows with a source excerpt, and never clears it. *)
Lemma print_error_quant e :
  ∀ st st', CLI.print_error e st = Ok st' →
            CLI.quant_warning st'
            = CLI.quant_warning st || mismatch_recorded e.
Proof.
  induction e as [|k| | | |m s|p|p|p c IH|k p t|es IH] using exn_induction;
    intros st st'; try (intros [= <-]; simpl; by rewrite orb_false_r).
  - change (CLI.print_error (ImportError p (Some c)) st)
      with (CLI.print_error c (CLI.print (CLI.headline
                                            (ImportError p (Some c))) st)
            ≫= λ st1, Ok st1).
    destruct (CLI.print_error c _) as [st1|] eqn:Hc; simpl; [|done].
    intros [= <-]. by rewrite (IH _ _ Hc).
  - destruct t as [source_text|];
      [|intros [= <-]; simpl; by rewrite orb_false_r].
    rewrite print_error_validation. simpl.
    destruct (bool_decide (source_text ≠ EmptyString)); simpl.
    + by intros ->%show_excerpt_quant.
    + intros [= <-]. simpl. by rewrite orb_false_r.
  - simpl. revert st. induction IH as [|e es He _ IHes]; intros st; simpl.
    + intros [= <-]. by rewrite orb_false_r.
    + destruct (CLI.print_error e st) as [st1|] eqn:He1; simpl; [|done].
      intros Hes. rewrite (IHes _ Hes), (He _ _ He1). by rewrite orb_assoc.
Qed.

(** C4 (amended).  When [print_error] returns, [quant_warning] is set if
    it was set before or if one of the errors printed is a
    [StaticTypeMismatch] that carries a non-empty source text and whose
    actual type coerces to the expected one with [check_quant = False];
    a mismatch without source text is printed but not recorded.  The
    handler of [main] then prints the hint exactly when strict checking
    is in effect and the flag is set. *)
Theorem C4_hint_after_recorded_mismatch
    (check_quant : bool) (e : exn) (st st' : CLI.state) :
  CLI.print_error e st = Ok st' →
  CLI.quant_warning st'
  = CLI.quant_warning st || mismatch_recorded e
  ∧ CLI.main_except check_quant e st
    = Ok (if check_quant && (CLI.quant_warning st || mismatch_recorded e)
          then CLI.print CLI.hint st' else st')
  ∧ (CLI.quant_warning st = false →
     ∃ out, CLI.main_except check_quant e st = Ok out
            ∧ (CLI.stderr out = CLI.stderr st' ++ [CLI.hint]
               ∧ check_quant = true ∧ mismatch_recorded e = true
               ∨ CLI.stderr out = CLI.stderr st'
                 ∧ (check_quant = false ∨ mismatch_recorded e = false))).
Proof.
  intros Hp. pose proof (print_error_quant e st st' Hp) as Hq.
  split; [done|].
  assert (CLI.main_except check_quant e st
          = Ok (if check_quant
                   && (CLI.quant_warning st || mismatch_recorded e)
                then CLI.print CLI.hint st' else st')) as Hm.
  { unfold CLI.main_except. rewrite Hp. simpl. by rewrite Hq. }
  split; [done|].
  intros Hfresh. rewrite Hm, Hfresh. simpl. eexists. split; [done|].
  destruct check_quant, (mismatch_recorded e); simpl; auto.
Qed.

End quant_hint.

Lemma C4_example :
  ∃ out,
    CLI.main_except (M := Examples.class_names) true
      (ValidationError DiagnosticExamples.int_for_array
         DiagnosticExamples.both_lines (Some DiagnosticExamples.two_lines))
      CLI.initial = Ok out
    ∧ last (CLI.stderr out) = Some CLI.hint.
Proof.
  destruct (C4_hint_after_recorded_mismatch (M := Examples.class_names) true
              (ValidationError DiagnosticExamples.int_for_array
                 DiagnosticExamples.both_lines
                 (Some DiagnosticExamples.two_lines))
              CLI.initial
              {| CLI.stderr := [ "(t.wdl Ln 1 Col 1) ValidationError";
                                 "    if x  "; "    ^^^^" ];
                 CLI.quant_warning := true |})
    as (_ & Hm & _).
  - vm_compute. reflexivity.
  - eexists. split; [exact Hm|]. reflexivity.
Defined.

(** C4 as stated fails: a mismatch that relaxed checking would accept, but
    which carries no source text, is seen by the printer under strict
    checking, and no hint follows. *)
Lemma C4_counterexample :
  mismatch_seen
    (ValidationError DiagnosticExamples.int_for_array
       DiagnosticExamples.both_lines None) = true
  ∧ ∃ out,
      CLI.main_except (M := Examples.class_names) true
        (ValidationError DiagnosticExamples.int_for_array
           DiagnosticExamples.both_lines None) CLI.initial = Ok out
      ∧ CLI.stderr out = ["(t.wdl Ln 1 Col 1) ValidationError"]
      ∧ CLI.hint ∉ CLI.stderr out.
Proof.
  split; [reflexivity|]. eexists. split; [vm_compute; reflexivity|].
  split; [reflexivity|].
  intros Hin. apply list_elem_of_In in Hin. simpl in Hin.
  destruct Hin as [Heq|[]]. discriminate Heq.
Qed.

(** * Further properties of the transformer *)

Section declarations.
Import WDL WDL._TaskTransformer.

(** X1.  A quantified declaration whose name token is a [CNAME]: with [?]
    it is built for every type, optional and not nonempty; with [+] it is
    built, nonempty and not optional, exactly when the type is an [Array],
    and otherwise the transformer raises [IncompatibleOperand] at the
    position of the declaration; any other quantifier token stops at the
    [assert]. *)
Theorem X1_quantified_decl_outcomes
    (ty : T.Base) (quantifier name : lark.Token) (meta : lark.Meta) :
  lark.type name = "CNAME" →
  (lark.value quantifier = "?" →
   quantified_decl ty quantifier name meta
   = Ok {| D.Decl.pos := sp meta; D.Decl.type := ty;
           D.Decl.name := lark.value name; D.Decl.optional := true;
           D.Decl.nonempty := false; D.Decl.expr := None |})
  ∧ (lark.value quantifier = "+" → T.is_Array ty = true →
     quantified_decl ty quantifier name meta
     = Ok {| D.Decl.pos := sp meta; D.Decl.type := ty;
             D.Decl.name := lark.value name; D.Decl.optional := false;
             D.Decl.nonempty := true; D.Decl.expr := None |})
  ∧ (lark.value quantifier = "+" → T.is_Array ty = false →
     quantified_decl ty quantifier name meta
     = Err (ValidationError
              (IncompatibleOperand "nonempty quantifier (+) on non-Array type")
              (sp meta) None))
  ∧ (lark.value quantifier ≠ "?" → lark.value quantifier ≠ "+" →
     quantified_decl ty quantifier name meta = Err AssertionError).
Proof.
  intros Hname. unfold quantified_decl, D.Decl.__init__, assert.
  rewrite (bool_decide_eq_true_2 _ Hname).
  split; [|split; [|split]].
  - intros ->. reflexivity.
  - intros -> ->. reflexivity.
  - intros -> ->. reflexivity.
  - intros H1 H2. by rewrite !bool_decide_eq_false_2 by done.
Qed.

(** X2.  Binding an initializer to a declaration that [decl] or
    [quantified_decl] built never fails, whatever the expression: the
    quantifier check passed at construction and [bind] repeats it on the
    same fields.  The result differs from the declaration in its expression
    only. *)
Theorem X2_bound_decl_after_decl
    (ty : T.Base) (quantifier name : lark.Token) (meta : lark.Meta)
    (d : D.Decl.t) (e : E.Base) :
  decl ty name meta = Ok d ∨ quantified_decl ty quantifier name meta = Ok d →
  bound_decl d e = Ok (with_expr d e)
  ∧ D.Decl.pos (with_expr d e) = sp meta
  ∧ D.Decl.name (with_expr d e) = lark.value name
  ∧ D.Decl.type (with_expr d e) = ty.
Proof.
  intros Hd.
  assert (∃ optional nonempty,
            D.Decl.__init__ (sp meta) ty (lark.value name) optional nonempty
              None = Ok d) as (optional & nonempty & Hinit).
  { destruct Hd as [Hd|Hd].
    - unfold decl in Hd. destruct (assert _); simpl in Hd; [|done]. eauto.
    - unfold quantified_decl in Hd.
      destruct (bool_decide (lark.value quantifier = "?")); simpl in Hd.
      + destruct (assert _); simpl in Hd; [|done]. eauto.
      + destruct (bool_decide (lark.value quantifier = "+")); simpl in Hd;
          [|done].
        destruct (assert _); simpl in Hd; [|done]. eauto. }
  split.
  - unfold bound_decl. apply bind_constructed. by eapply init_invariant.
  - unfold D.Decl.__init__ in Hinit.
    destruct (nonempty && negb (T.is_Array ty)); [done|].
    by injection Hinit as <-.
Qed.

End declarations.

Lemma X1_example :
  WDL._TaskTransformer.quantified_decl (T.Int false)
    {| lark.type := "QUANT"; lark.value := "+" |}
    {| lark.type := "CNAME"; lark.value := "n" |} Examples.nowhere
  = Err (ValidationError
           (IncompatibleOperand "nonempty quantifier (+) on non-Array type")
           (WDL.sp Examples.nowhere) None).
Proof.
  refine (proj1 (proj2 (proj2 (X1_quantified_decl_outcomes (T.Int false)
    {| lark.type := "QUANT"; lark.value := "+" |}
    {| lark.type := "CNAME"; lark.value := "n" |} Examples.nowhere _))) _ _);
    reflexivity.
Defined.

Lemma X2_example :
  WDL._TaskTransformer.bound_decl
    {| D.Decl.pos := WDL.sp Examples.nowhere;
       D.Decl.type := T.Array (T.Int false) false false;
       D.Decl.name := "xs"; D.Decl.optional := false; D.Decl.nonempty := true;
       D.Decl.expr := None |} (E.Array Examples.here [])
  = Ok (with_expr
          {| D.Decl.pos := WDL.sp Examples.nowhere;
             D.Decl.type := T.Array (T.Int false) false false;
             D.Decl.name := "xs"; D.Decl.optional := false;
             D.Decl.nonempty := true; D.Decl.expr := None |}
          (E.Array Examples.here [])).
Proof.
  refine (proj1 (X2_bound_decl_after_decl (T.Array (T.Int false) false false)
    {| lark.type := "QUANT"; lark.value := "+" |}
    {| lark.type := "CNAME"; lark.value := "xs" |} Examples.nowhere _
    (E.Array Examples.here []) _)).
  right. reflexivity.
Defined.

Section placeholders.
Import WDL WDL._TaskTransformer.

Lemma options_dict_snoc (options : list (string * string)) k v :
  foldl (λ (d : gmap string string) kv, <[kv.1 := kv.2]> d) ∅
    (options ++ [(k, v)])
  = <[k := v]> (foldl (λ (d : gmap string string) kv, <[kv.1 := kv.2]> d)
                  ∅ options).
Proof. by rewrite foldl_app. Qed.

Lemma options_dict_absent (options : list (string * string)) k :
  k ∉ options.*1 →
  foldl (λ (d : gmap string string) kv, <[kv.1 := kv.2]> d) ∅ options !! k
  = None.
Proof.
  induction options as [|[k' v'] options IH] using rev_ind; intros Hk.
  - apply lookup_empty.
  - rewrite options_dict_snoc. rewrite fmap_app in Hk.
    apply not_elem_of_app in Hk as [Hk Hk'].
    rewrite lookup_insert_ne; [by apply IH|].
    intros ->. apply Hk'. simpl. by left.
Qed.

Lemma options_dict_last (pre post : list (string * string)) k v :
  k ∉ post.*1 →
  foldl (λ (d : gmap string string) kv, <[kv.1 := kv.2]> d) ∅
    (pre ++ (k, v) :: post) !! k
  = Some v.
Proof.
  induction post as [|[k' v'] post IH] using rev_ind; intros Hk.
  - rewrite options_dict_snoc. apply lookup_insert_eq.
  - rewrite fmap_app in Hk. apply not_elem_of_app in Hk as [Hk Hk'].
    replace (pre ++ (k, v) :: post ++ [(k', v')])
      with ((pre ++ (k, v) :: post) ++ [(k', v')])
      by (by rewrite <- app_assoc).
    rewrite options_dict_snoc, lookup_insert_ne; [by apply IH|].
    intros ->. apply Hk'. simpl. by left.
Qed.

(** X3.  The options of a placeholder: an option that is given several
    times keeps the value given last, without an error; an option that is
    not given is absent from the mapping. *)
Theorem X3_placeholder_last_option_wins
    (options : list (string * string)) (e : E.Base) (meta : lark.Meta) :
  ∃ mapping : gmap string string,
    placeholder options e meta = E.Placeholder (sp meta) mapping e
    ∧ (∀ k, k ∉ options.*1 → mapping !! k = None)
    ∧ (∀ pre k v post,
         options = pre ++ (k, v) :: post → k ∉ post.*1 →
         mapping !! k = Some v).
Proof.
  eexists. split; [reflexivity|]. split.
  - apply options_dict_absent.
  - intros pre k v post -> Hk. by apply options_dict_last.
Qed.

(** X4.  An option of a placeholder takes the text of its value token
    without the first and the last character, so a quoted text comes out
    without its quotes; a value of fewer than three characters gives the
    empty text. *)
Theorem X4_placeholder_option_unquotes (key value : lark.Token) :
  (∀ open text close,
     lark.value value
     = String.String open (text +:+ String.String close EmptyString) →
     placeholder_option key value = (lark.value key, text))
  ∧ (String.length (lark.value value) ≤ 2 →
     placeholder_option key value = (lark.value key, EmptyString)).
Proof.
  unfold placeholder_option, Python.slice, Python.slice_bound. split.
  - intros open text close ->. f_equal. simpl String.length.
    rewrite length_append. simpl String.length.
    replace (1 <? 0)%Z with false by done.
    replace (-1 <? 0)%Z with true by done.
    replace (Z.min 1 _) with 1%Z by lia.
    replace (Z.max 0 _) with (Z.of_nat (String.length text) + 1)%Z by lia.
    replace (Z.of_nat (String.length text) + 1 - 1)%Z
      with (Z.of_nat (String.length text)) by lia.
    rewrite Nat2Z.id. change (Z.to_nat 1) with 1. simpl.
    apply substring_prefix.
  - intros Hlen. f_equal.
    replace (1 <? 0)%Z with false by done.
    replace (-1 <? 0)%Z with true by done.
    destruct (lark.value value) as [|c1 [|c2 [|c3 s]]]; simpl in Hlen;
      try reflexivity. lia.
Qed.

End placeholders.

Section meta_objects.
Import WDL WDL._TaskTransformer.

Lemma store_meta_loop items (acc : list (string * Py.t)) :
  (NoDup items.*1 ∧ (∀ k, k ∈ items.*1 → k ∉ acc.*1) ∧
   for_each store_meta items acc = Ok (acc ++ items))
  ∨ (¬ (NoDup items.*1 ∧ ∀ k, k ∈ items.*1 → k ∉ acc.*1) ∧
     for_each store_meta items acc = Err AssertionError).
Proof.
  revert acc. induction items as [|[k v] items IH]; intros acc.
  - left. split; [constructor|]. split.
    + intros k Hk. by apply elem_of_nil in Hk.
    + simpl. by rewrite app_nil_r.
  - simpl. unfold Python.odict_contains.
    destruct (decide (k ∈ acc.*1)) as [Hin|Hnin].
    + right. rewrite bool_decide_eq_true_2 by done. simpl. split; [|done].
      intros [_ Hfresh]. apply (Hfresh k); [by left | done].
    + rewrite bool_decide_eq_false_2 by done. simpl.
      destruct (IH (acc ++ [(k, v)])) as [(Hnd & Hfresh & Hok)|[Hbad Herr]].
      * left. split.
        { apply NoDup_cons. split; [|done]. intros Hk.
          apply (Hfresh k Hk). rewrite fmap_app. apply elem_of_app. right.
          simpl. by left. }
        split.
        { intros k' [->|Hk']%elem_of_cons; [done|].
          intros Hacc. apply (Hfresh k' Hk'). rewrite fmap_app.
          apply elem_of_app. by left. }
        by rewrite Hok, <- app_assoc.
      * right. split; [|done]. intros [Hnd Hfresh]. apply Hbad.
        apply NoDup_cons in Hnd as [Hk Hnd]. split; [done|].
        intros k' Hk'. rewrite fmap_app. intros [Hacc|Hkk]%elem_of_app.
        -- apply (Hfresh k'); [by right | done].
        -- simpl in Hkk. apply list_elem_of_singleton in Hkk as ->. done.
Qed.

(** X5.  A meta object is built exactly when its keys are pairwise
    distinct, and then holds its entries in the order of the source; a key
    that comes twice stops the transformer at an [assert], with
    [AssertionError]. *)
Theorem X5_meta_object_distinct_keys (items : list (string * Py.t)) :
  (NoDup items.*1 → meta_object items = Ok (Py.Dict items))
  ∧ (¬ NoDup items.*1 → meta_object items = Err AssertionError)
  ∧ (∀ v, meta_object items = Ok v → NoDup items.*1 ∧ v = Py.Dict items).
Proof.
  unfold meta_object.
  destruct (store_meta_loop items []) as [(Hnd & _ & Hok)|[Hbad Herr]].
  - rewrite Hok. simpl. split; [done|]. split; [done|].
    by intros v [= <-].
  - rewrite Herr. simpl. split; [|split; [done|done]].
    intros Hnd. destruct Hbad. split; [done|].
    intros k _ Hk. by apply elem_of_nil in Hk.
Qed.

End meta_objects.

Section section_order.
Import WDL WDL._TaskTransformer.

Lemma entries_permutation items items' :
  items ≡ₚ items' → entries items ≡ₚ entries items'.
Proof. intros Hp. unfold entries. by apply Permutation_flat_map. Qed.

Lemma dict_or_str_permutation items items' :
  items ≡ₚ items' →
  forallb dict_or_str items = true → forallb dict_or_str items' = true.
Proof.
  intros Hp. rewrite !forallb_forall. intros Hall x Hx. apply Hall.
  apply list_elem_of_In. rewrite Hp. by apply list_elem_of_In.
Qed.

Lemma sections_permutation items items' :
  items ≡ₚ items' → sections items = sections items'.
Proof.
  intros Hp. pose proof (entries_permutation _ _ Hp) as He.
  destruct (forallb dict_or_str items) eqn:Hall.
  - destruct (decide (NoDup (keys items))) as [Hnd|Hnd].
    + assert (NoDup (keys items')) as Hnd'
        by (unfold keys; by rewrite <- He).
      pose proof (dict_or_str_permutation _ _ Hp Hall) as Hall'.
      destruct (sections_ok items Hall Hnd) as (d & -> & Hl).
      destruct (sections_ok items' Hall' Hnd') as (d' & -> & Hl').
      f_equal. apply map_eq. intros k. rewrite Hl, Hl'.
      by rewrite (list_to_map_proper _ _ Hnd He).
    + rewrite (sections_duplicate items) by by right.
      rewrite (sections_duplicate items'); [done|]. right.
      intros Hnd'. apply Hnd. unfold keys. by rewrite He.
  - rewrite (sections_duplicate items) by by left.
    rewrite (sections_duplicate items'); [done|]. left.
    destruct (forallb dict_or_str items') eqn:Hall'; [|done].
    symmetry in Hp.
    by rewrite (dict_or_str_permutation _ _ Hp Hall') in Hall.
Qed.

(** X6.  The sections of a task may come in any order: two lists of
    children that are permutations of one another give the same task, or
    fail alike. *)
Theorem X6_task_sections_in_any_order
    (items items' : list task_item) (meta : lark.Meta) :
  items ≡ₚ items' → task items meta = task items' meta.
Proof.
  intros Hp. unfold task. by rewrite (sections_permutation _ _ Hp).
Qed.

End section_order.

Lemma X6_example :
  WDL._TaskTransformer.task [WDL.NameToken "t"; TaskExamples.echo]
    Examples.nowhere
  = WDL._TaskTransformer.task [TaskExamples.echo; WDL.NameToken "t"]
      Examples.nowhere.
Proof.
  apply (X6_task_sections_in_any_order [WDL.NameToken "t"; TaskExamples.echo]
           [TaskExamples.echo; WDL.NameToken "t"] Examples.nowhere).
  apply perm_swap.
Defined.

(** * Further properties of type-checking *)

Section typecheck_more.
Context `{G : E.Globals}.

Lemma bindings_snoc ds d env :
  bindings (ds ++ [d]) env
  = E.TypeEnv_bind (D.Decl.name d, D.Decl.type d) (bindings ds env).
Proof. by rewrite bindings_app. Qed.

Lemma lookup_bindings ds env x :
  E.TypeEnv_lookup (bindings ds env) x
  = match last_declared x ds with
    | Some d => Some (D.Decl.type d)
    | None => E.TypeEnv_lookup env x
    end.
Proof.
  unfold last_declared.
  induction ds as [|d ds IH] using rev_ind; [done|].
  rewrite bindings_snoc, filter_app. simpl.
  destruct (decide (D.Decl.name d = x)) as [Heq|Hne].
  - rewrite bool_decide_eq_true_2 by done.
    rewrite filter_cons_True by done. rewrite filter_nil.
    by rewrite last_snoc.
  - rewrite bool_decide_eq_false_2 by done.
    rewrite filter_cons_False by done. rewrite filter_nil, app_nil_r.
    apply IH.
Qed.

(** X7.  [Task.typecheck] stops at the first failure and reports it: the
    error of the first declaration of [inputs + postinputs] whose
    expression does not check, whatever follows it; else the error of the
    command, whatever the outputs; else the error of the first output
    whose expression does not check. *)
Theorem X7_typecheck_reports_first_failure
    (tk : D.Task.t) (type_env : option E.TypeEnv) (x : exn) :
  (∀ pre d post e,
     D.Task.inputs tk ++ D.Task.postinputs tk = pre ++ d :: post →
     checked_in_order pre (default E.TypeEnv_empty type_env) →
     D.Decl.expr d = Some e →
     E.typecheck e (bindings pre (default E.TypeEnv_empty type_env))
       (D.Decl.type d) = Err x →
     D.Task.typecheck tk type_env = Err x)
  ∧ (checked_in_order (D.Task.inputs tk ++ D.Task.postinputs tk)
       (default E.TypeEnv_empty type_env) →
     E.typecheck (D.Task.command tk)
       (bindings (D.Task.inputs tk ++ D.Task.postinputs tk)
          (default E.TypeEnv_empty type_env)) (T.String false) = Err x →
     D.Task.typecheck tk type_env = Err x)
  ∧ (∀ pre d post e,
       checked_in_order (D.Task.inputs tk ++ D.Task.postinputs tk)
         (default E.TypeEnv_empty type_env) →
       E.typecheck (D.Task.command tk)
         (bindings (D.Task.inputs tk ++ D.Task.postinputs tk)
            (default E.TypeEnv_empty type_env)) (T.String false) = Ok tt →
       D.Task.outputs tk = pre ++ d :: post →
       checked_in_order pre
         (bindings (D.Task.inputs tk ++ D.Task.postinputs tk)
            (default E.TypeEnv_empty type_env)) →
       D.Decl.expr d = Some e →
       E.typecheck e
         (bindings pre
            (bindings (D.Task.inputs tk ++ D.Task.postinputs tk)
               (default E.TypeEnv_empty type_env)))
         (D.Decl.type d) = Err x →
       D.Task.typecheck tk type_env = Err x).
Proof.
  split; [|split].
  - intros pre d post e Hds Hpre He Hx.
    rewrite task_typecheck_unfold, Hds.
    by rewrite (decls_first_error pre d post _ e x).
  - intros Hin Hc. rewrite task_typecheck_unfold.
    assert (for_each D._typecheck_decl
              (D.Task.inputs tk ++ D.Task.postinputs tk)
              (default E.TypeEnv_empty type_env)
            = Ok (bindings (D.Task.inputs tk ++ D.Task.postinputs tk)
                    (default E.TypeEnv_empty type_env))) as ->
      by by apply decls_ok.
    simpl. by rewrite Hc.
  - intros pre d post e Hin Hc Hout Hpre He Hx.
    rewrite task_typecheck_unfold.
    assert (for_each D._typecheck_decl
              (D.Task.inputs tk ++ D.Task.postinputs tk)
              (default E.TypeEnv_empty type_env)
            = Ok (bindings (D.Task.inputs tk ++ D.Task.postinputs tk)
                    (default E.TypeEnv_empty type_env))) as ->
      by by apply decls_ok.
    simpl. rewrite Hc. simpl. rewrite Hout.
    by apply (decls_first_error pre d post _ e x).
Qed.

(** X8.  After a successful [Task.typecheck] the environment binds every
    name to the type of its last declaration among the inputs, the
    postinputs and the outputs, in that order; a name that the task does
    not declare keeps the binding it had before, if any.  Declaring a name
    twice is not an error. *)
Theorem X8_typecheck_last_declaration_wins
    (tk : D.Task.t) (type_env : option E.TypeEnv) (env' : E.TypeEnv)
    (x : string) :
  D.Task.typecheck tk type_env = Ok env' →
  E.TypeEnv_lookup env' x
  = match last_declared x (D.Task.inputs tk ++ D.Task.postinputs tk
                           ++ D.Task.outputs tk) with
    | Some d => Some (D.Decl.type d)
    | None => E.TypeEnv_lookup (default E.TypeEnv_empty type_env) x
    end.
Proof.
  rewrite task_typecheck_unfold.
  destruct (for_each D._typecheck_decl _ (default _ type_env))
    as [env1|] eqn:Hin; simpl; [|done].
  apply decls_ok in Hin as [_ ->].
  destruct (E.typecheck (D.Task.command tk) _ _) as [[]|]; simpl; [|done].
  intros [_ ->]%decls_ok.
  rewrite <- bindings_app, <- app_assoc. apply lookup_bindings.
Qed.

End typecheck_more.

Lemma X8_example :
  E.TypeEnv_lookup [("b", T.Int false); ("a", T.Int false)] "a"
  = Some (T.Int false).
Proof.
  exact (X8_typecheck_last_declaration_wins (G := Examples.strict)
           (OrderExamples.task_with [OrderExamples.a; OrderExamples.b]) None
           [("b", T.Int false); ("a", T.Int false)] "a" eq_refl).
Defined.

(** * Further properties of the command line *)

Section print_error_more.
Context `{M : CLI.Messages}.

Lemma getitem_out_of_range {A : Type} (xs : list A) (i : Z) :
  (Z.of_nat (length xs) ≤ i ∨ i < - Z.of_nat (length xs))%Z →
  Python.getitem xs i = Err IndexError.
Proof.
  intros Hi. unfold Python.getitem.
  destruct (i <? 0)%Z eqn:Hneg.
  - destruct (Z.of_nat (length xs) + i <? 0)%Z eqn:Hj; [done|].
    destruct (xs !! Z.to_nat (Z.of_nat (length xs) + i)) eqn:Hl; [|done].
    apply lookup_lt_Some in Hl. lia.
  - rewrite Hneg.
    destruct (xs !! Z.to_nat i) eqn:Hl; [|done].
    apply lookup_lt_Some in Hl. lia.
Qed.

Lemma getitem_from_the_end {A : Type} (xs : list A) (i : Z) :
  (- Z.of_nat (length xs) ≤ i < 0)%Z →
  Python.getitem xs i = Python.getitem xs (Z.of_nat (length xs) + i).
Proof.
  intros Hi.
  assert ((i <? 0)%Z = true) as H1 by lia.
  assert ((Z.of_nat (length xs) + i <? 0)%Z = false) as H2 by lia.
  unfold Python.getitem. cbv zeta. rewrite H1. cbv iota. rewrite !H2.
  reflexivity.
Qed.

(** X9.  The position of an error is not checked against its source text.
    With a text that is not empty, a line number beyond the last line of
    the text (or below minus the number of lines) makes [print_error] raise
    [IndexError], after the headline; a line number from zero down to one
    minus the number of lines is counted from the end of the text, so that
    line 0 shows the last line. *)
Theorem X9_print_error_line_out_of_range
    (kind : validation_kind) (pos : SourcePosition) (source_text : string)
    (st : CLI.state) :
  source_text ≠ EmptyString →
  ((Z.of_nat (length (Python.split Python.newline source_text)) < line pos
    ∨ line pos ≤ - Z.of_nat (length (Python.split Python.newline source_text)))%Z
   → CLI.print_error (ValidationError kind pos (Some source_text)) st
     = Err IndexError)
  ∧ ((- Z.of_nat (length (Python.split Python.newline source_text))
      < line pos ≤ 0)%Z →
     reported_line pos source_text
     = reported_line
         {| uri := uri pos;
            line := Z.of_nat (length (Python.split Python.newline source_text))
                    + line pos;
            column := column pos; end_line := end_line pos;
            end_column := end_column pos |} source_text).
Proof.
  intros Htext. split.
  - intros Hline.
    rewrite print_error_validation, bool_decide_eq_true_2 by done.
    unfold CLI.show_excerpt. rewrite getitem_out_of_range; [done|lia].
  - intros Hline. unfold reported_line. simpl.
    rewrite getitem_from_the_end by lia. do 2 f_equal. lia.
Qed.

(** X10.  An error none of whose parts carries a source text is always
    printed: [print_error] returns, having added, after what was written
    before, one headline for each error in order, the cause of an
    [ImportError] after it, and leaves [quant_warning] as it was. *)
Theorem X10_print_error_without_source (e : exn) :
  without_source e = true →
  ∀ st, CLI.print_error e st
        = Ok {| CLI.stderr := CLI.stderr st ++ headlines e;
                CLI.quant_warning := CLI.quant_warning st |}.
Proof.
  induction e as [|k| | | |m s|p|p|p c IH|k p t|es IH] using exn_induction;
    intros Hws st; try reflexivity.
  - change (CLI.print_error (ImportError p None) st)
      with (Ok (CLI.print "None"
                  (CLI.print (CLI.headline (ImportError p None)) st))).
    unfold CLI.print. simpl. by rewrite <- app_assoc.
  - change (CLI.print_error (ImportError p (Some c)) st)
      with (CLI.print_error c
              (CLI.print (CLI.headline (ImportError p (Some c))) st)
            ≫= λ st1, Ok st1).
    rewrite (IH Hws). simpl. by rewrite <- app_assoc.
  - destruct t as [source_text|]; [|reflexivity].
    simpl in Hws. apply bool_decide_eq_true_1 in Hws as ->. reflexivity.
  - simpl in Hws. simpl. revert st.
    induction IH as [|e es He _ IHes]; intros st; simpl.
    + rewrite app_nil_r. by destruct st.
    + simpl in Hws. apply andb_prop in Hws as [Hws1 Hws2].
      rewrite (He Hws1). simpl. rewrite (IHes Hws2). simpl.
      by rewrite <- app_assoc.
Qed.

Lemma show_excerpt_outcome kind pos source_text :
  (∃ out, ∀ st, CLI.show_excerpt kind pos source_text st
                = Ok {| CLI.stderr := CLI.stderr st ++ out;
                        CLI.quant_warning :=
                          CLI.quant_warning st || relaxed_accepts kind |})
  ∨ (∃ x, ∀ st, CLI.show_excerpt kind pos source_text st = Err x).
Proof.
  unfold CLI.show_excerpt.
  destruct (Python.getitem _ _) as [raw|x]; simpl; [|right; by exists x].
  destruct (CLI.trim _ _ _) as [e|x]; simpl; [|right; by exists x].
  left. eexists [_; _]. intros st. unfold CLI.print, CLI.set_quant_warning.
  simpl. rewrite <- app_assoc. simpl.
  destruct kind as [| | | |expected actual|]; simpl;
    try (by rewrite orb_false_r).
  destruct (T.coerces actual expected false); simpl.
  - by rewrite orb_true_r.
  - by rewrite orb_false_r.
Qed.

(** X11.  What [print_error] does with an error depends on the error
    alone, not on what was written before nor on [quant_warning]: either
    it raises the same exception in every state, or it returns in every
    state, having added the same lines after those already written
    (removing none) and having set [quant_warning] if the error holds a
    recorded mismatch, without ever clearing it. *)
Theorem X11_print_error_only_appends (e : exn) :
  (∃ out, ∀ st, CLI.print_error e st
                = Ok {| CLI.stderr := CLI.stderr st ++ out;
                        CLI.quant_warning :=
                          CLI.quant_warning st || mismatch_recorded e |})
  ∨ (∃ x, ∀ st, CLI.print_error e st = Err x).
Proof.
  induction e as [|k| | | |m s|p|p|p c IH|k p t|es IH] using exn_induction;
    try (left; eexists [_]; intros st; simpl; by rewrite orb_false_r).
  - left. eexists [_; _]. intros st.
    change (CLI.print_error (ImportError p None) st)
      with (Ok (CLI.print "None"
                  (CLI.print (CLI.headline (ImportError p None)) st))).
    unfold CLI.print. simpl. by rewrite <- app_assoc, orb_false_r.
  - destruct IH as [[out Hout]|[x Hx]].
    + left. exists (CLI.headline (ImportError p (Some c)) :: out). intros st.
      change (CLI.print_error (ImportError p (Some c)) st)
        with (CLI.print_error c
                (CLI.print (CLI.headline (ImportError p (Some c))) st)
              ≫= λ st1, Ok st1).
      rewrite Hout. simpl. by rewrite <- app_assoc.
    + right. exists x. intros st.
      change (CLI.print_error (ImportError p (Some c)) st)
        with (CLI.print_error c
                (CLI.print (CLI.headline (ImportError p (Some c))) st)
              ≫= λ st1, Ok st1).
      by rewrite Hx.
  - destruct t as [source_text|];
      [|left; eexists [_]; intros st; simpl; by rewrite orb_false_r].
    destruct (decide (source_text = EmptyString)) as [->|Hne].
    { left. eexists [_]. intros st. simpl. by rewrite orb_false_r. }
    destruct (show_excerpt_outcome k p source_text) as [[out Hout]|[x Hx]].
    + left.
      exists (CLI.headline (ValidationError k p (Some source_text)) :: out).
      intros st.
      rewrite print_error_validation, bool_decide_eq_true_2 by done.
      rewrite Hout. simpl. rewrite bool_decide_eq_true_2 by done.
      simpl. by rewrite <- app_assoc.
    + right. exists x. intros st.
      rewrite print_error_validation, bool_decide_eq_true_2 by done.
      apply Hx.
  - simpl. induction IH as [|e es He _ IHes].
    + left. exists []. intros st. simpl. rewrite app_nil_r, orb_false_r.
      by destruct st.
    + destruct He as [[out1 H1]|[x Hx]].
      * destruct IHes as [[out2 H2]|[x Hx]].
        -- left. exists (out1 ++ out2). intros st. simpl.
           rewrite H1. simpl. rewrite H2. simpl.
           by rewrite <- app_assoc, <- orb_assoc.
        -- right. exists x. intros st. simpl. rewrite H1. simpl. apply Hx.
      * right. exists x. intros st. simpl. by rewrite Hx.
Qed.

End print_error_more.

Lemma X9_example :
  CLI.print_error (M := Examples.class_names)
    (ValidationError OtherValidation
       {| uri := "t.wdl"; line := 3; column := 1; end_line := 3;
          end_column := 2 |} (Some DiagnosticExamples.two_lines)) CLI.initial
  = Err IndexError.
Proof.
  refine (proj1 (X9_print_error_line_out_of_range (M := Examples.class_names)
    OtherValidation _ DiagnosticExamples.two_lines CLI.initial _) _).
  - discriminate.
  - left. vm_compute. reflexivity.
Defined.

Lemma X10_example :
  CLI.print_error (M := Examples.class_names)
    (MultipleValidationErrors
       [ImportError Examples.here None;
        ValidationError OtherValidation Examples.here None]) CLI.initial
  = Ok {| CLI.stderr := ["(t.wdl Ln 1 Col 1) ImportError"; "None";
                         "(t.wdl Ln 1 Col 1) ValidationError"];
          CLI.quant_warning := false |}.
Proof.
  apply (X10_print_error_without_source (M := Examples.class_names)
           (MultipleValidationErrors
              [ImportError Examples.here None;
               ValidationError OtherValidation Examples.here None])).
  reflexivity.
Defined.

Section constant_expressions.

Lemma expr_array_induction (P : E.Base → Prop) :
  (∀ e, (∀ p items, e ≠ E.Array p items) → P e) →
  (∀ p items, Forall P items → P (E.Array p items)) →
  ∀ e, P e.
Proof.
  intros Hother Harray. fix IH 1. intros e.
  destruct e as [p b|p i|p f|p parts|p items|p f args|p c t a|p n|p o inner].
  - by apply Hother.
  - by apply Hother.
  - by apply Hother.
  - by apply Hother.
  - apply Harray. induction items as [|x xs IHxs]; constructor;
      [apply IH | apply IHxs].
  - by apply Hother.
  - by apply Hother.
  - by apply Hother.
  - by apply Hother.
Qed.

Lemma constant_array p items :
  CLI.is_constant_expr (E.Array p items)
  = forallb CLI.is_constant_expr items.
Proof.
  simpl. induction items as [|x xs IH]; [done|]. simpl.
  destruct (CLI.is_constant_expr x); simpl; [apply IH | done].
Qed.

(** X12.  [is_constant_expr] never takes an expression that computes for a
    constant: an application (so also a negated number, which the
    transformer builds as one), a conditional, an identifier, a
    placeholder, or an array with such an item at any depth.  An array is
    constant exactly when all its items are. *)
Theorem X12_is_constant_expr_rejects_computation :
  (∀ e, CLI.is_constant_expr e = true → computes e = false)
  ∧ (∀ p items,
       CLI.is_constant_expr (E.Array p items)
       = forallb CLI.is_constant_expr items)
  ∧ (∀ items meta,
       CLI.is_constant_expr (WDL._ExprTransformer.negate items meta) = false
       ∧ CLI.is_constant_expr (WDL._ExprTransformer.get items meta) = false)
  ∧ (∀ names meta,
       CLI.is_constant_expr (WDL._ExprTransformer.ident names meta) = false)
  ∧ (∀ op name items meta e,
       WDL._ExprTransformer.infix op items meta = Ok e
       ∨ WDL._ExprTransformer.apply name items meta = Ok e
       ∨ WDL._ExprTransformer.ifthenelse items meta = Ok e →
       CLI.is_constant_expr e = false).
Proof.
  split; [|split; [apply constant_array|split; [done|split; [done|]]]].
  2:{ intros op name items meta e [He|[He|He]].
      - unfold WDL._ExprTransformer.infix in He.
        destruct (assert _); simpl in He; [|done]. by injection He as <-.
      - destruct name; simpl in He; [|done]. by injection He as <-.
      - destruct items as [|a [|b [|c [|d items]]]]; simpl in He; try done.
        by injection He as <-. }
  induction e as [e He|p items IH] using expr_array_induction.
  - destruct e as [| | | |p items| | | |]; try done. by destruct (He p items).
  - rewrite constant_array. simpl.
    induction IH as [|x xs Hx _ IHxs]; [done|]. simpl.
    intros [Hc Hcs]%andb_prop. by rewrite (Hx Hc), (IHxs Hcs).
Qed.

End constant_expressions.

Section input_values.
Context `{H : CLI.Host}.

Lemma scalar_value_has_type s ty v :
  T.is_Array ty = false →
  CLI.runner_input_value s ty = Ok v →
  value_has_type v ty = true
  ∧ match v with Value.Array _ _ => False | _ => True end.
Proof.
  destruct ty as [o|o|o|o|o|item o ne|]; simpl; try done; intros _.
  - destruct (CLI.int_of_str s); simpl; [|done]. by intros [= <-].
  - destruct (CLI.float_of_str s); simpl; [|done]. by intros [= <-].
  - destruct (bool_decide (s = "true")); [by intros [= <-]|].
    destruct (bool_decide (s = "false")); [by intros [= <-]|done].
  - by intros [= <-].
  - destruct (negb _); [done|]. by intros [= <-].
Qed.

(** X13.  A value that [runner_input_value] returns has the shape of the
    type it was asked for: a string, file, boolean, integer or float value
    for the scalar types, and for an array type an array of the declared
    item type with exactly one element, which is the value read for the
    item type. *)
Theorem X13_runner_input_value_has_the_type
    (s_value : string) (ty : T.Base) (v : Value.Base) :
  CLI.runner_input_value s_value ty = Ok v →
  value_has_type v ty = true
  ∧ (∀ item o ne, ty = T.Array item o ne →
       ∃ w, CLI.runner_input_value s_value item = Ok w
            ∧ v = Value.Array item [w])
  ∧ on_command_line ty = true.
Proof.
  destruct (T.is_Array ty) eqn:Harr.
  - destruct ty as [| | | | |item o ne|]; try done. intros Hv.
    assert (∃ w, CLI.runner_input_value s_value item = Ok w
                 ∧ v = Value.Array item [w] ∧ T.is_Array item = false
                 ∧ on_command_line (T.Array item o ne) = true)
      as (w & Hw & -> & Hitem & Hsup).
    { simpl in Hv. destruct item as [?|?|?|?|?|? ? ?|]; try done;
        (destruct (CLI.runner_input_value s_value _) as [w|] eqn:Hw;
         simpl in Hv; [|done]; injection Hv as <-; by exists w). }
    split; [|split; [|done]].
    + simpl. destruct (T.Base_eq_dec item item); [|done]. simpl.
      by rewrite (proj1 (scalar_value_has_type _ _ _ Hitem Hw)).
    + intros item' o' ne' [= <- <- <-]. by exists w.
  - intros Hv. split; [by apply (scalar_value_has_type s_value)|].
    split; [intros item o ne ->; done|].
    destruct ty; done.
Qed.

(** X14.  What [runner_input_value] refuses, by exiting with status 2: a
    boolean that is written otherwise than [true] or [false]; a file that
    can neither be downloaded nor found; and every text for a type that is
    not read from the command line, among them arrays of booleans and
    arrays of arrays, although a boolean alone is read. *)
Theorem X14_runner_input_value_refusals (s_value : string) :
  (∀ o, s_value ≠ "true" → s_value ≠ "false" →
        ∃ msg, CLI.runner_input_value s_value (T.Boolean o)
               = Err (SystemExit msg 2))
  ∧ (∀ o, CLI.downloadable s_value = false → CLI.isfile s_value = false →
          CLI.runner_input_value s_value (T.File o)
          = Err (SystemExit ("File not found: " +:+ s_value) 2))
  ∧ (∀ ty, on_command_line ty = false →
           ∃ msg, CLI.runner_input_value s_value ty = Err (SystemExit msg 2))
  ∧ (∀ o o' ne,
       CLI.runner_input_value "true" (T.Boolean o) = Ok (Value.Boolean true)
       ∧ ∃ msg, CLI.runner_input_value s_value (T.Array (T.Boolean o) o' ne)
                = Err (SystemExit msg 2))
  ∧ (∀ item o ne o' ne',
       ∃ msg, CLI.runner_input_value s_value
                (T.Array (T.Array item o ne) o' ne')
              = Err (SystemExit msg 2)).
Proof.
  split; [|split; [|split; [|split]]].
  - intros o Ht Hf. simpl. rewrite !bool_decide_eq_false_2 by done.
    eexists. reflexivity.
  - intros o Hd Hf. simpl. by rewrite Hd, Hf.
  - intros ty Hty. destruct ty as [| | | | |item o ne|]; try done.
    + destruct item; try done; eexists; reflexivity.
    + eexists. reflexivity.
  - intros o o' ne. split; [reflexivity|]. eexists. reflexivity.
  - intros item o ne o' ne'. eexists. reflexivity.
Qed.

End input_values.

Lemma X13_example :
  value_has_type (Value.Array (T.Int false) [Value.Int 7])
    (T.Array (T.Int false) false false) = true.
Proof.
  exact (proj1 (X13_runner_input_value_has_the_type (H := HostExamples.simple)
                  "7" (T.Array (T.Int false) false false)
                  (Value.Array (T.Int false) [Value.Int 7]) eq_refl)).
Defined.

Section command_line_inputs.
Context `{H : CLI.Host}.
Variables (target_name target_uri help : string).
Variable available_inputs : Env.Bindings D.Decl.t.

Local Abbreviation add_input :=
  (CLI.add_input target_name target_uri help available_inputs).
Local Abbreviation inputs_loop :=
  (CLI.runner_input_inputs target_name target_uri help available_inputs).

Lemma split1_at_first (name s : string) :
  Python.equals_sign ∉ list_ascii_of_string name →
  Python.split1 Python.equals_sign
    (name +:+ String.String Python.equals_sign s) = [name; s].
Proof.
  induction name as [|c name IH]; intros Hno; simpl.
  - done.
  - simpl in Hno. apply not_elem_of_cons in Hno as [Hc Hno].
    rewrite bool_decide_eq_false_2 by done. by rewrite IH.
Qed.


Lemma env_getitem_error {A : Type} (env : Env.Bindings A) key e :
  Env.getitem env key = Err e → e = KeyError key.
Proof.
  induction env as [|b env IH]; simpl.
  - by intros [= <-].
  - destruct (bool_decide _); [done | apply IH].
Qed.

Lemma extend_binding_lookup (env : Env.Bindings Value.Base) name item vs more :
  Env.getitem env name = Ok (Value.Array item vs) →
  Env.getitem (CLI.extend_binding env name more) name
  = Ok (Value.Array item (vs ++ more))
  ∧ ∀ other, other ≠ name →
             Env.getitem (CLI.extend_binding env name more) other
             = Env.getitem env other.
Proof.
  induction env as [|b env IH]; simpl; [done|].
  destruct (decide (Env.name b = name)) as [Heq|Hne].
  - rewrite (bool_decide_eq_true_2 _ Heq). intros [= Hv]. simpl.
    rewrite (bool_decide_eq_true_2 _ Heq), Hv. split; [done|].
    intros other Ho. by rewrite !bool_decide_eq_false_2 by congruence.
  - rewrite (bool_decide_eq_false_2 _ Hne). intros Hv. simpl.
    rewrite (bool_decide_eq_false_2 _ Hne).
    destruct (IH Hv) as [Hn Ho]. split; [done|].
    intros other Hother. destruct (bool_decide (Env.name b = other)); [done|].
    by apply Ho.
Qed.

(** The argument [name=s_value] for a declared input whose value reads. *)
Lemma add_input_reads name c rest s_value decl v env :
  name = String.String c rest → Python.isalpha c = true →
  Python.equals_sign ∉ list_ascii_of_string name →
  Env.getitem available_inputs name = Ok decl →
  CLI.runner_input_value s_value (D.Decl.type decl) = Ok v →
  add_input (name +:+ String.String Python.equals_sign s_value) env
  = match Env.getitem env name with
    | Ok existing =>
        match v with
        | Value.Array _ more =>
            _ ← assert (match existing with
                        | Value.Array _ _ => true
                        | _ => false
                        end
                        && T.coerces (CLI.value_type v)
                             (CLI.value_type existing) true);
            Ok (CLI.extend_binding env name more)
        | _ => CLI.die ("non-array input " +:+ name +:+ " duplicated"
                        +:+ String.String Python.newline help)
        end
    | Err _ => Ok (Env.bind env name v (Some decl))
    end.
Proof.
  intros Hname Hc Hno Hdecl Hv. unfold CLI.add_input.
  rewrite split1_at_first by done. rewrite Hname at 1. simpl. rewrite Hc.
  simpl. rewrite bool_decide_eq_false_2 by (by rewrite Hname).
  rewrite Hdecl. simpl. rewrite Hv. simpl.
  destruct (Env.getitem env name) as [existing|e] eqn:He; [done|].
  by rewrite (env_getitem_error _ _ _ He).
Qed.

Lemma inputs_loop_extends name c rest decl item o ne ss ws :
  name = String.String c rest → Python.isalpha c = true →
  Python.equals_sign ∉ list_ascii_of_string name →
  Env.getitem available_inputs name = Ok decl →
  D.Decl.type decl = T.Array item o ne →
  on_command_line (T.Array item o ne) = true →
  Forall2 (λ s w, CLI.runner_input_value s item = Ok w) ss ws →
  ∀ env vs,
    Env.getitem env name = Ok (Value.Array item vs) →
    ∃ env',
      inputs_loop (map (λ s, name +:+ String.String Python.equals_sign s) ss)
        env = Ok env'
      ∧ Env.getitem env' name = Ok (Value.Array item (vs ++ ws))
      ∧ ∀ other, other ≠ name →
                 Env.getitem env' other = Env.getitem env other.
Proof.
  intros Hname Hc Hno Hdecl Hty Hsup Hall.
  induction Hall as [|s w ss ws Hw _ IH]; intros env vs Henv.
  - exists env. by rewrite app_nil_r.
  - assert (CLI.runner_input_value s (D.Decl.type decl)
            = Ok (Value.Array item [w])) as Hv.
    { rewrite Hty. simpl. destruct item; try done; by rewrite Hw. }
    pose proof (add_input_reads name c rest s decl _ env Hname Hc Hno Hdecl Hv)
      as Hstep.
    rewrite Henv in Hstep. simpl in Hstep.
    unfold T.coerces in Hstep. rewrite bool_decide_eq_true_2 in Hstep by done.
    simpl in Hstep.
    destruct (extend_binding_lookup env name item vs [w] Henv) as [Hn Ho].
    destruct (IH _ _ Hn) as (env' & Hloop & Hn' & Ho').
    exists env'. split; [|split].
    + unfold CLI.runner_input_inputs in *. simpl. by rewrite Hstep.
    + by rewrite Hn', <- app_assoc.
    + intros other Hother. rewrite Ho' by done. by apply Ho.
Qed.

(** X15.  An array input may be given by repeating its name: the
    arguments [name=s1 name=s2 ...] for an input declared with an array
    type that the command line reads bind [name], when it was not bound
    before, to the array of the values read from [s1], [s2], ... in the
    order given, and leave every other input as it was; when [name]
    already holds an array of the item type, the values are added after
    those it holds. *)
Theorem X15_repeated_array_input_accumulates
    (name : string) (c : ascii) (rest : string) (decl : D.Decl.t)
    (item : T.Base) (o ne : bool) (ss : list string) (ws : list Value.Base)
    (env : Env.Bindings Value.Base) :
  name = String.String c rest → Python.isalpha c = true →
  Python.equals_sign ∉ list_ascii_of_string name →
  Env.getitem available_inputs name = Ok decl →
  D.Decl.type decl = T.Array item o ne →
  on_command_line (T.Array item o ne) = true →
  Forall2 (λ s w, CLI.runner_input_value s item = Ok w) ss ws →
  (∀ vs, Env.getitem env name = Ok (Value.Array item vs) →
     ∃ env',
       inputs_loop (map (λ s, name +:+ String.String Python.equals_sign s) ss)
         env = Ok env'
       ∧ Env.getitem env' name = Ok (Value.Array item (vs ++ ws))
       ∧ ∀ other, other ≠ name →
                  Env.getitem env' other = Env.getitem env other)
  ∧ (ss ≠ [] → Env.getitem env name = Err (KeyError name) →
     ∃ env',
       inputs_loop (map (λ s, name +:+ String.String Python.equals_sign s) ss)
         env = Ok env'
       ∧ Env.getitem env' name = Ok (Value.Array item ws)
       ∧ ∀ other, other ≠ name →
                  Env.getitem env' other = Env.getitem env other).
Proof.
  intros Hname Hc Hno Hdecl Hty Hsup Hall. split.
  - intros vs Henv. by eapply inputs_loop_extends.
  - intros Hne Henv. destruct Hall as [|s w ss ws Hw Hall]; [done|].
    assert (CLI.runner_input_value s (D.Decl.type decl)
            = Ok (Value.Array item [w])) as Hv.
    { rewrite Hty. simpl. destruct item; try done; by rewrite Hw. }
    pose proof (add_input_reads name c rest s decl _ env Hname Hc Hno Hdecl Hv)
      as Hstep.
    rewrite Henv in Hstep.
    assert (Env.getitem (Env.bind env name (Value.Array item [w]) (Some decl))
              name = Ok (Value.Array item [w])) as Hbound
      by (simpl; by rewrite bool_decide_eq_true_2).
    destruct (inputs_loop_extends name c rest decl item o ne ss ws
                Hname Hc Hno Hdecl Hty Hsup Hall _ _ Hbound)
      as (env' & Hloop & Hn & Ho).
    exists env'. split; [|split; [done|]].
    + unfold CLI.runner_input_inputs in *. simpl. by rewrite Hstep.
    + intros other Hother. rewrite Ho by done. simpl.
      by rewrite bool_decide_eq_false_2 by congruence.
Qed.

(** X16.  An input that is not an array may be given once: when [name]
    is already bound, a second argument for it whose value reads makes
    [runner_input] exit with status 2, naming the duplicated input. *)
Theorem X16_repeated_scalar_input_is_refused
    (name : string) (c : ascii) (rest s_value : string) (decl : D.Decl.t)
    (v existing : Value.Base) (env : Env.Bindings Value.Base) :
  name = String.String c rest → Python.isalpha c = true →
  Python.equals_sign ∉ list_ascii_of_string name →
  Env.getitem available_inputs name = Ok decl →
  T.is_Array (D.Decl.type decl) = false →
  CLI.runner_input_value s_value (D.Decl.type decl) = Ok v →
  Env.getitem env name = Ok existing →
  add_input (name +:+ String.String Python.equals_sign s_value) env
  = Err (SystemExit ("non-array input " +:+ name +:+ " duplicated"
                     +:+ String.String Python.newline help) 2).
Proof.
  intros Hname Hc Hno Hdecl Hty Hv Henv.
  rewrite (add_input_reads name c rest s_value decl v env) by done.
  rewrite Henv.
  destruct (scalar_value_has_type _ _ _ Hty Hv) as [_ Hshape].
  by destruct v.
Qed.


End command_line_inputs.

Lemma X15_example :
  ∃ env',
    CLI.runner_input_inputs (H := HostExamples.simple) "t" "t.wdl" ""
      HostExamples.available ["names=a"; "names=b"] [] = Ok env'
    ∧ Env.getitem env' "names"
      = Ok (Value.Array (T.String false) [Value.String "a"; Value.String "b"]).
Proof.
  destruct (proj2 (X15_repeated_array_input_accumulates
                     (H := HostExamples.simple) "t" "t.wdl" ""
                     HostExamples.available "names" "n" "ames"
                     HostExamples.names (T.String false) false false
                     ["a"; "b"] [Value.String "a"; Value.String "b"] []
                     eq_refl eq_refl
                     ltac:(apply (bool_decide_unpack _); vm_compute; exact I)
                     eq_refl eq_refl eq_refl
                     ltac:(repeat constructor)))
    as (env' & Hloop & Hnames & _).
  - discriminate.
  - reflexivity.
  - exists env'. split; [exact Hloop | exact Hnames].
Defined.

Lemma X16_example :
  CLI.add_input (H := HostExamples.simple) "t" "t.wdl" ""
    HostExamples.available "n=7"
    [ {| Env.name := "n"; Env.value := Value.Int 7; Env.info := None |} ]
  = Err (SystemExit ("non-array input n duplicated"
                     +:+ String.String Python.newline "") 2).
Proof.
  apply (X16_repeated_scalar_input_is_refused (H := HostExamples.simple)
           "t" "t.wdl" "" HostExamples.available "n" "n" "" "7"
           HostExamples.n (Value.Int 7) (Value.Int 7)).
  - reflexivity.
  - reflexivity.
  - apply (bool_decide_unpack _). vm_compute. exact I.
  - reflexivity.
  - reflexivity.
  - reflexivity.
  - reflexivity.
Defined.

Section empty_option_more.
Variables (target_name help : string).
Variable available_inputs : Env.Bindings D.Decl.t.

Lemma set_empty_unknown name env :
  Env.getitem available_inputs name = Err (KeyError name) →
  CLI.set_empty target_name help available_inputs name env
  = Err (SystemExit ("No such input to " +:+ target_name +:+ ": " +:+ name
                     +:+ String.String Python.newline help) 2).
Proof. intros Hd. unfold CLI.set_empty. by rewrite Hd. Qed.

(** X18.  The [--empty] option of [runner_input]: without the option, or
    with no name, the inputs are left as they are; a failure is always an
    exit with status 2, no [KeyError] reaches the caller; and a name that
    is not an input of the target makes the whole option fail, so that
    nothing is bound, even for the names that came before it. *)
Theorem X18_empty_option_fails_by_exit
    (empty : option (list string)) (input_env : Env.Bindings Value.Base) :
  CLI.runner_input_empty target_name help available_inputs None input_env
  = Ok input_env
  ∧ CLI.runner_input_empty target_name help available_inputs (Some [])
      input_env = Ok input_env
  ∧ (∀ e, CLI.runner_input_empty target_name help available_inputs empty
            input_env = Err e →
          ∃ msg, e = SystemExit msg 2)
  ∧ (∀ names name,
       empty = Some names → name ∈ names →
       Env.getitem available_inputs name = Err (KeyError name) →
       ∃ msg, CLI.runner_input_empty target_name help available_inputs empty
                input_env = Err (SystemExit msg 2)).
Proof.
  split; [done|]. split; [done|]. split.
  - intros e. unfold CLI.runner_input_empty. apply loop_exits.
  - intros names name -> Hin Hd. unfold CLI.runner_input_empty. simpl.
    revert input_env. induction names as [|n names IH]; intros env;
      [by apply elem_of_nil in Hin|].
    simpl.
    destruct (CLI.set_empty target_name help available_inputs n env)
      as [env'|e] eqn:Hs; simpl.
    + apply elem_of_cons in Hin as [<-|Hin]; [|by apply IH].
      by rewrite set_empty_unknown in Hs.
    + destruct (set_empty_exits _ _ _ _ _ _ Hs) as [msg ->]. by exists msg.
Qed.

End empty_option_more.

Section constant_strings.
Import WDL.

(** X19.  Whether a string literal counts as constant is decided by its
    items alone: the string that the transformer builds is constant when
    it has two items, or three with a token in the middle, and not
    otherwise; so a literal with an interpolation between two texts is not
    constant, and neither is one with four items or more. *)
Theorem X19_constant_string_literals
    (items : list text_item) (meta : lark.Meta) :
  CLI.is_constant_expr (_ExprTransformer.string items meta)
  = bool_decide (length items = 2)
    || (bool_decide (length items = 3)
        && match items !! 1 with Some (Tok _) => true | _ => false end).
Proof.
  rewrite string_parts. simpl. rewrite length_map, list_lookup_fmap.
  destruct (items !! 1) as [[t|e]|]; done.
Qed.

End constant_strings.
